(** * debugid: a shallow embedding of [src/src/lib.rs]

    Rust strings ([&str], [String]) are modelled as Rocq [string]s, i.e. as
    their UTF-8 byte sequences: [len] is [String.length], slicing is by byte
    offset and [str::get] checks char boundaries.  Rust [u32] values are [Z]s
    in [0, 2^32); [u8] values are [Byte.byte]s. *)

From Stdlib Require Import ZArith List String Ascii Bool Lia Strings.Byte.
Import ListNotations.

Local Open Scope string_scope.

(** ** Rust [str] helpers *)

Definition byte_val (c : ascii) : Z := Z.of_N (N_of_ascii c).

(** [u8::is_ascii] *)
Definition is_ascii_char (c : ascii) : bool := (byte_val c <? 128)%Z.

(** [str::is_ascii] *)
Fixpoint str_is_ascii (s : string) : bool :=
  match s with
  | EmptyString => true
  | String c r => is_ascii_char c && str_is_ascii r
  end.

(** [str::is_char_boundary]: offset 0, the end of the string, or a byte that
    is not a UTF-8 continuation byte ([0x80..0xBF]). *)
Definition is_char_boundary (s : string) (i : nat) : bool :=
  match i with
  | O => true
  | _ =>
      match String.get i s with
      | Some c => negb ((128 <=? byte_val c)%Z && (byte_val c <? 192)%Z)
      | None => Nat.eqb i (String.length s)
      end
  end.

(** [str::get(a..b)] *)
Definition str_get (s : string) (a b : nat) : option string :=
  if Nat.leb a b && Nat.leb b (String.length s)
     && is_char_boundary s a && is_char_boundary s b
  then Some (substring a (b - a) s) else None.

(** [str::get(..b)] and [str::get(a..)] *)
Definition str_get_to (s : string) (b : nat) : option string := str_get s 0 b.
Definition str_get_from (s : string) (a : nat) : option string :=
  str_get s a (String.length s).

(** [&s[a..]]; used only where [a] is known to be an in-range boundary. *)
Definition str_slice_from (s : string) (a : nat) : string :=
  substring a (String.length s - a) s.

(** [&s[..b]]; used only where [b] is known to be an in-range boundary. *)
Definition str_slice_to (s : string) (b : nat) : string := substring 0 b s.

(** [s.starts_with('-')] *)
Definition starts_with_hyphen (s : string) : bool :=
  match s with
  | String c _ => Ascii.eqb c "-"
  | EmptyString => false
  end.

(** ** Hex digits *)

(** [char::to_digit(16)] applied to a byte. *)
Definition to_digit16 (c : ascii) : option Z :=
  let n := byte_val c in
  if (48 <=? n)%Z && (n <=? 57)%Z then Some (n - 48)%Z
  else if (97 <=? n)%Z && (n <=? 102)%Z then Some (n - 87)%Z
  else if (65 <=? n)%Z && (n <=? 70)%Z then Some (n - 55)%Z
  else None.

(** [u8::is_ascii_hexdigit] *)
Definition is_ascii_hexdigit (c : ascii) : bool :=
  match to_digit16 c with Some _ => true | None => false end.

(** [u8::to_ascii_lowercase] *)
Definition to_ascii_lowercase (c : ascii) : ascii :=
  let n := byte_val c in
  if (65 <=? n)%Z && (n <=? 90)%Z then ascii_of_N (Z.to_N (n + 32)) else c.

(** The digit characters written by [{:x}] and [{:X}]. *)
Definition hex_digit_lower (d : Z) : ascii :=
  ascii_of_N (Z.to_N (if (d <? 10)%Z then 48 + d else 87 + d)%Z).
Definition hex_digit_upper (d : Z) : ascii :=
  ascii_of_N (Z.to_N (if (d <? 10)%Z then 48 + d else 55 + d)%Z).

(** ** [u32::from_str_radix(s, 16)]

    An optional leading [+] (a lone sign is an error; [-] is an invalid digit
    for an unsigned type), then at least one digit, accumulated with
    [checked_mul] and [checked_add]. *)
Fixpoint u32_radix16_digits (acc : Z) (s : string) : option Z :=
  match s with
  | EmptyString => Some acc
  | String c r =>
      match to_digit16 c with
      | None => None
      | Some d =>
          let m := (acc * 16)%Z in
          if (m <? 2 ^ 32)%Z then
            let v := (m + d)%Z in
            if (v <? 2 ^ 32)%Z then u32_radix16_digits v r else None
          else None
      end
  end.

Definition u32_from_str_radix16 (s : string) : option Z :=
  match s with
  | EmptyString => None
  | String c r =>
      if (Ascii.eqb c "+" || Ascii.eqb c "-") && String.eqb r "" then None
      else if Ascii.eqb c "+" then u32_radix16_digits 0 r
      else u32_radix16_digits 0 s
  end.

(** ** [u32] hex formatting: [{:x}], [{:X}] and [{:08X}]

    [core::fmt] emits the least significant digit first until the quotient is
    zero; a [u32] has at most 8 hex digits, so 8 rounds suffice. *)
Fixpoint radix16_digits_rev (fuel : nat) (n : Z) : list Z :=
  match fuel with
  | O => []
  | S f =>
      (n mod 16)%Z :: (if (n / 16 =? 0)%Z then [] else radix16_digits_rev f (n / 16))
  end.

Definition u32_hex_digits (n : Z) : list Z := rev (radix16_digits_rev 8 n).

Definition fmt_x (n : Z) : string :=
  string_of_list_ascii (map hex_digit_lower (u32_hex_digits n)).
Definition fmt_X (n : Z) : string :=
  string_of_list_ascii (map hex_digit_upper (u32_hex_digits n)).

(** Zero padding to a minimum width ([{:0w}]). *)
Definition pad_zeros (w : nat) (s : string) : string :=
  string_of_list_ascii (repeat "0"%char (w - String.length s)) ++ s.

Definition fmt_08X (n : Z) : string := pad_zeros 8 (fmt_X n).

(** ** The [uuid] crate, as far as [debugid] uses it *)
Module uuid.

(** [uuid::Uuid] is a [[u8; 16]]. *)
Record Uuid := from_bytes {
  u0 : byte; u1 : byte; u2 : byte; u3 : byte;
  u4 : byte; u5 : byte; u6 : byte; u7 : byte;
  u8 : byte; u9 : byte; u10 : byte; u11 : byte;
  u12 : byte; u13 : byte; u14 : byte; u15 : byte }.

Definition as_bytes (u : Uuid) : list byte :=
  [u0 u; u1 u; u2 u; u3 u; u4 u; u5 u; u6 u; u7 u;
   u8 u; u9 u; u10 u; u11 u; u12 u; u13 u; u14 u; u15 u].

Definition nil : Uuid :=
  from_bytes x00 x00 x00 x00 x00 x00 x00 x00
             x00 x00 x00 x00 x00 x00 x00 x00.

(** [Uuid::is_nil] *)
Definition is_nil (u : Uuid) : bool :=
  forallb (fun b => Byte.eqb b x00) (as_bytes u).

Definition hi_nibble (b : byte) : Z := (Z.of_N (Byte.to_N b) / 16)%Z.
Definition lo_nibble (b : byte) : Z := (Z.of_N (Byte.to_N b) mod 16)%Z.

Definition fmt_02x (b : byte) : string :=
  String (hex_digit_lower (hi_nibble b)) (String (hex_digit_lower (lo_nibble b)) EmptyString).
Definition fmt_02X (b : byte) : string :=
  String (hex_digit_upper (hi_nibble b)) (String (hex_digit_upper (lo_nibble b)) EmptyString).

Fixpoint fmt_bytes (f : byte -> string) (l : list byte) : string :=
  match l with
  | [] => EmptyString
  | b :: r => f b ++ fmt_bytes f r
  end.

(** [impl Display for Uuid]: hyphenated lowercase, groups 4-2-2-2-6 bytes. *)
Definition to_hyphenated (u : Uuid) : string :=
  fmt_bytes fmt_02x [u0 u; u1 u; u2 u; u3 u] ++ "-" ++
  fmt_bytes fmt_02x [u4 u; u5 u] ++ "-" ++
  fmt_bytes fmt_02x [u6 u; u7 u] ++ "-" ++
  fmt_bytes fmt_02x [u8 u; u9 u] ++ "-" ++
  fmt_bytes fmt_02x [u10 u; u11 u; u12 u; u13 u; u14 u; u15 u].

(** [format!("{:X}", uuid.to_simple_ref())]: 32 uppercase digits. *)
Definition to_simple_upper (u : Uuid) : string :=
  fmt_bytes fmt_02X (as_bytes u).

Definition byte_of_Z (z : Z) : byte :=
  match Byte.of_N (Z.to_N z) with Some b => b | None => x00 end.

(** Two hex digits per byte, high nibble first. *)
Fixpoint hex_pairs (s : string) : option (list byte) :=
  match s with
  | EmptyString => Some []
  | String h (String l r) =>
      match to_digit16 h, to_digit16 l, hex_pairs r with
      | Some dh, Some dl, Some bs => Some (byte_of_Z (dh * 16 + dl) :: bs)
      | _, _, _ => None
      end
  | String _ EmptyString => None
  end.

Definition of_list (l : list byte) : option Uuid :=
  match l with
  | [b0; b1; b2; b3; b4; b5; b6; b7; b8; b9; b10; b11; b12; b13; b14; b15] =>
      Some (from_bytes b0 b1 b2 b3 b4 b5 b6 b7 b8 b9 b10 b11 b12 b13 b14 b15)
  | _ => None
  end.

Definition is_group_hyphen (i : nat) : bool :=
  Nat.eqb i 8 || Nat.eqb i 13 || Nat.eqb i 18 || Nat.eqb i 23.

(** The hyphens of the hyphenated form sit at offsets 8, 13, 18 and 23. *)
Fixpoint hyphens_in_place (i : nat) (s : string) : bool :=
  match s with
  | EmptyString => true
  | String c r =>
      (if is_group_hyphen i then Ascii.eqb c "-" else true) && hyphens_in_place (S i) r
  end.

Fixpoint drop_group_hyphens (i : nat) (s : string) : string :=
  match s with
  | EmptyString => EmptyString
  | String c r =>
      if is_group_hyphen i then drop_group_hyphens (S i) r
      else String c (drop_group_hyphens (S i) r)
  end.

(** [Uuid::parse_str]: 32 hex digits (simple), 36 characters with hyphens
    after the 8th, 12th, 16th and 20th digit (hyphenated), or the
    hyphenated form behind a [urn:uuid:] prefix; digits in either case. *)
Definition parse_hyphenated (s : string) : option Uuid :=
  if hyphens_in_place 0 s then
    match hex_pairs (drop_group_hyphens 0 s) with
    | Some bs => of_list bs
    | None => None
    end
  else None.

Definition parse_str (s : string) : option Uuid :=
  let len := String.length s in
  if Nat.eqb len 36 then parse_hyphenated s
  else if Nat.eqb len 32 then
    match hex_pairs s with Some bs => of_list bs | None => None end
  else if Nat.eqb len 45 && String.prefix "urn:uuid:" s then
    parse_hyphenated (substring 9 36 s)
  else None.

End uuid.

(** ** [DebugId] *)

(** [ParseDebugIdError] and [ParseCodeIdError] *)
Inductive ParseDebugIdError := ParseDebugIdError_.
Inductive ParseCodeIdError := ParseCodeIdError_.

(** [Result<T, E>] *)
Inductive result (T E : Type) := Ok (v : T) | Err (e : E).
Arguments Ok {T E}.
Arguments Err {T E}.

Record ParseOptions := {
  allow_hyphens : bool;
  require_appendix : bool;
  allow_tail : bool }.

(** [enum Identifier { Pdb20(u32), Uuid(Uuid) }] *)
Inductive Identifier :=
| Pdb20 (timestamp : Z)
| Uuid (u : uuid.Uuid).

(** [struct DebugId { id, appendix, _padding: [u8; 12] }]; the derived
    [PartialEq] is structural equality. *)
Record DebugId := mkDebugId {
  id : Identifier;
  appendix : Z;
  padding : list byte }.

Definition zero_padding : list byte := repeat x00 12.

(** [DebugId::nil] = [Default::default()] *)
Definition nil : DebugId := mkDebugId (Uuid uuid.nil) 0 zero_padding.

Definition from_parts (u : uuid.Uuid) (appendix : Z) : DebugId :=
  mkDebugId (Uuid u) appendix zero_padding.

Definition from_uuid (u : uuid.Uuid) : DebugId := from_parts u 0.

Definition from_guid_age (guid : list byte) (age : Z) : result DebugId ParseDebugIdError :=
  if negb (Nat.eqb (List.length guid) 16) then Err ParseDebugIdError_
  else
    let g i := nth i guid x00 in
    let u := uuid.from_bytes (g 3) (g 2) (g 1) (g 0) (g 5) (g 4) (g 7) (g 6) (g 8)
                             (g 9) (g 10) (g 11) (g 12) (g 13) (g 14) (g 15) in
    Ok (from_parts u age).

Definition from_timestamp_age (timestamp age : Z) : DebugId :=
  mkDebugId (Pdb20 timestamp) age zero_padding.

Definition is_nil (d : DebugId) : bool :=
  let id_is_nil :=
    match id d with
    | Pdb20 timestamp => (timestamp =? 0)%Z
    | Uuid u => uuid.is_nil u
    end in
  id_is_nil && (appendix d =? 0)%Z.

Definition is_pdb20 (d : DebugId) : bool :=
  match id d with Pdb20 _ => true | Uuid _ => false end.

(** [string.get(8..9) == Some("-")] *)
Definition hyphen_at_8 (s : string) : bool :=
  match str_get s 8 9 with Some h => String.eqb h "-" | None => false end.

(** The length window in which the PDB 2.0 format can match. *)
Definition pdb20_window (is_hyphenated : bool) (len : nat) : bool :=
  is_hyphenated && Nat.leb 10 len && Nat.leb len 17
  || negb is_hyphenated && Nat.leb 9 len && Nat.leb len 16.

(** [DebugId::parse_str] *)
Definition parse_str (s : string) (options : ParseOptions) : option DebugId :=
  let is_hyphenated := hyphen_at_8 s in
  if is_hyphenated && negb (allow_hyphens options) || negb (str_is_ascii s) then None
  else
  let len := String.length s in
  (* Can the PDB 2.0 format match?  This can never be true for a valid UUID. *)
  if pdb20_window is_hyphenated len then
    match str_get_to s 8 with
    | None => None
    | Some timestamp_str =>
    match u32_from_str_radix16 timestamp_str with
    | None => None
    | Some timestamp =>
    match (if is_hyphenated then str_get_from s 9 else str_get_from s 8) with
    | None => None
    | Some appendix_str =>
    match u32_from_str_radix16 appendix_str with
    | None => None
    | Some appendix => Some (from_timestamp_age timestamp appendix)
    end end end end
  else
  let uuid_len := if is_hyphenated then 36%nat else 32%nat in
  match str_get_to s uuid_len with
  | None => None
  | Some uuid_str =>
  match uuid.parse_str uuid_str with
  | None => None
  | Some u =>
  if negb (require_appendix options) && Nat.eqb len uuid_len then Some (from_parts u 0)
  else
  let appendix_str := str_slice_from s uuid_len in
  if xorb is_hyphenated (starts_with_hyphen appendix_str) then None
  else
  let appendix_str := if is_hyphenated then str_slice_from appendix_str 1 else appendix_str in
  let appendix_str :=
    if allow_tail options && Nat.ltb 8 (String.length appendix_str)
    then str_slice_to appendix_str 8 else appendix_str in
  match u32_from_str_radix16 appendix_str with
  | None => None
  | Some appendix => Some (from_parts u appendix)
  end end end.

Definition from_breakpad (s : string) : result DebugId ParseDebugIdError :=
  let options := {| allow_hyphens := false; require_appendix := true; allow_tail := false |} in
  match parse_str s options with Some d => Ok d | None => Err ParseDebugIdError_ end.

(** [impl FromStr for DebugId] *)
Definition from_str (s : string) : result DebugId ParseDebugIdError :=
  let options := {| allow_hyphens := true; require_appendix := false; allow_tail := true |} in
  match parse_str s options with Some d => Ok d | None => Err ParseDebugIdError_ end.

(** [impl Display for DebugId] ([to_string]) *)
Definition to_string (d : DebugId) : string :=
  (match id d with
   | Pdb20 timestamp => fmt_08X timestamp
   | Uuid u => uuid.to_hyphenated u
   end) ++
  (if (0 <? appendix d)%Z then "-" ++ fmt_x (appendix d) else "").

(** [impl Display for BreakpadFormat] ([d.breakpad().to_string()]) *)
Definition breakpad (d : DebugId) : string :=
  match id d with
  | Pdb20 timestamp => fmt_08X timestamp ++ fmt_x (appendix d)
  | Uuid u => uuid.to_simple_upper u ++ fmt_x (appendix d)
  end.

(** ** [CodeId] *)

Record CodeId := mkCodeId { inner : string }.

Definition CodeId_nil : CodeId := mkCodeId "".

(** [String::retain(|c| c.is_ascii_hexdigit())]: every byte of a non-ASCII
    character is at least 0x80, so filtering bytes removes exactly the
    non-hex characters. *)
Fixpoint retain_hexdigits (s : string) : string :=
  match s with
  | EmptyString => EmptyString
  | String c r => if is_ascii_hexdigit c then String c (retain_hexdigits r) else retain_hexdigits r
  end.

(** [String::make_ascii_lowercase] *)
Fixpoint make_ascii_lowercase (s : string) : string :=
  match s with
  | EmptyString => EmptyString
  | String c r => String (to_ascii_lowercase c) (make_ascii_lowercase r)
  end.

Definition CodeId_new (s : string) : CodeId :=
  mkCodeId (make_ascii_lowercase (retain_hexdigits s)).

(** [write!(&mut string, "{:02x}", byte)] for every byte, then [new]. *)
Definition CodeId_from_binary (slice : list byte) : CodeId :=
  CodeId_new (fold_left (fun acc b => acc ++ uuid.fmt_02x b) slice "").

Definition CodeId_is_nil (c : CodeId) : bool := String.eqb (inner c) "".

(** [impl FromStr for CodeId], [From<String>], [From<&str>] *)
Definition CodeId_from_str (s : string) : result CodeId ParseCodeIdError := Ok (CodeId_new s).
Definition CodeId_from (s : string) : CodeId := CodeId_new s.

(** ** Serialization and the remaining [CodeId] API *)

(** [serde::de::Error::invalid_value(Unexpected::Str(value), &self)] *)
Inductive DeError := invalid_value (unexpected_str : string).

(** [impl Serialize for DebugId]: [serializer.serialize_str(&self.to_string())] *)
Definition DebugId_serialize (d : DebugId) : string := to_string d.

(** [impl Deserialize for DebugId]: the visitor's [visit_str] on the string
    [value]: [value.parse()], an error mapped to [invalid_value]. *)
Definition DebugId_deserialize (value : string) : result DebugId DeError :=
  match from_str value with
  | Ok d => Ok d
  | Err _ => Err (invalid_value value)
  end.

(** [CodeId::as_str] (also [AsRef<str>] and [Display]) *)
Definition CodeId_as_str (c : CodeId) : string := inner c.

(** [impl Serialize for CodeId]: [serializer.serialize_str(self.as_str())] *)
Definition CodeId_serialize (c : CodeId) : string := CodeId_as_str c.

(** [impl Deserialize for CodeId], on the deserialized [String]. *)
Definition CodeId_deserialize (string : string) : result CodeId DeError := Ok (CodeId_new string).

(** The derived [Ord] of [CodeId] compares [inner]: [String]'s order, which
    is byte-wise lexicographic with a proper prefix first ([String.compare]
    on the bytes). *)
Definition CodeId_cmp (a b : CodeId) : comparison := String.compare (inner a) (inner b).

(** [Ord for [u8]]: byte-wise lexicographic, a proper prefix first. *)
Fixpoint bytes_cmp (a b : list byte) : comparison :=
  match a, b with
  | [], [] => Eq
  | [], _ :: _ => Lt
  | _ :: _, [] => Gt
  | x :: a', y :: b' =>
      match N.compare (Byte.to_N x) (Byte.to_N y) with
      | Eq => bytes_cmp a' b'
      | c => c
      end
  end.

(** ** Auxiliary definitions used in the proofs *)

(** [u8::to_ascii_uppercase] and [str::make_ascii_uppercase], the
    counterparts of the lowercase functions above. *)
Definition to_ascii_uppercase (c : ascii) : ascii :=
  let n := byte_val c in
  if (97 <=? n)%Z && (n <=? 122)%Z then ascii_of_N (Z.to_N (n - 32)) else c.

Fixpoint make_ascii_uppercase (s : string) : string :=
  match s with
  | EmptyString => EmptyString
  | String c r => String (to_ascii_uppercase c) (make_ascii_uppercase r)
  end.

(** A string with a byte map applied to each of its bytes. *)
Fixpoint str_map (f : ascii -> ascii) (s : string) : string :=
  match s with
  | EmptyString => EmptyString
  | String c r => String (f c) (str_map f r)
  end.

(** The values the constructors of [DebugId] build: [u32] fields in range
    and the padding zeroed. *)
Definition wf_debugid (d : DebugId) : Prop :=
  padding d = zero_padding /\ (0 <= appendix d < 2 ^ 32)%Z /\
  match id d with Pdb20 t => (0 <= t < 2 ^ 32)%Z | Uuid _ => True end.

(** [n] zero characters. *)
Definition zeros (n : nat) : string := string_of_list_ascii (repeat "0"%char n).

(** Base-16 digit values, and the digit characters of a formatter. *)
Definition is_digit16 (d : Z) : Prop := (0 <= d < 16)%Z.

(** What the formatter writes for a digit is read back as that digit, and is
    an ASCII character that is neither a sign nor a hyphen. *)
Definition digit_char_ok (hc : Z -> ascii) : Prop :=
  forall d, is_digit16 d ->
    to_digit16 (hc d) = Some d /\ Ascii.eqb (hc d) "+" = false /\
    Ascii.eqb (hc d) "-" = false /\ is_ascii_char (hc d) = true.

(** The value of a most-significant-first list of base-16 digits. *)
Definition digit_step (acc d : Z) : Z := (acc * 16 + d)%Z.
Definition digits_value (l : list Z) : Z := fold_left digit_step l 0%Z.

(** The options of [FromStr] and of [from_breakpad]. *)
Definition general_options : ParseOptions :=
  {| allow_hyphens := true; require_appendix := false; allow_tail := true |}.
Definition breakpad_options : ParseOptions :=
  {| allow_hyphens := false; require_appendix := true; allow_tail := false |}.

(** Lowercase ASCII hex digits, the alphabet of a [CodeId]. *)
Definition is_lower_hexdigit (c : ascii) : bool :=
  let n := byte_val c in
  (48 <=? n)%Z && (n <=? 57)%Z || (97 <=? n)%Z && (n <=? 102)%Z.

(** A string of ASCII hex digits. *)
Definition all_hex (s : string) : Prop :=
  Forall (fun c => is_ascii_hexdigit c = true) (list_ascii_of_string s).

(** The default form without its appendix segment. *)
Definition id_to_string (i : Identifier) : string :=
  match i with
  | Pdb20 timestamp => fmt_08X timestamp
  | Uuid u => uuid.to_hyphenated u
  end.

(** ** The repository's tests, evaluated *)

Definition uuid_dfb8 : uuid.Uuid :=
  uuid.from_bytes xdf xb8 xe4 x3a xf2 x42 x3d x73 xa4 x53 xae xb6 xa7 x77 xef x75.

Example test_uuid_parse : uuid.parse_str "dfb8e43a-f242-3d73-a453-aeb6a777ef75" = Some uuid_dfb8.
Proof. vm_compute. reflexivity. Qed.
Example test_parse_zero :
  from_str "dfb8e43a-f242-3d73-a453-aeb6a777ef75" = Ok (from_parts uuid_dfb8 0).
Proof. vm_compute. reflexivity. Qed.
Example test_parse_short :
  from_str "dfb8e43a-f242-3d73-a453-aeb6a777ef75-a" = Ok (from_parts uuid_dfb8 10).
Proof. vm_compute. reflexivity. Qed.
Example test_parse_compact :
  from_str "dfb8e43af2423d73a453aeb6a777ef75feedface" = Ok (from_parts uuid_dfb8 4277009102).
Proof. vm_compute. reflexivity. Qed.
Example test_parse_upper :
  from_str "DFB8E43A-F242-3D73-A453-AEB6A777EF75-FEEDFACE" = Ok (from_parts uuid_dfb8 4277009102).
Proof. vm_compute. reflexivity. Qed.
Example test_to_string_long :
  to_string (from_parts uuid_dfb8 4277009102) = "dfb8e43a-f242-3d73-a453-aeb6a777ef75-feedface".
Proof. vm_compute. reflexivity. Qed.
Example test_to_string_zero :
  to_string (from_parts uuid_dfb8 0) = "dfb8e43a-f242-3d73-a453-aeb6a777ef75".
Proof. vm_compute. reflexivity. Qed.
Example test_parse_error_short :
  from_str "dfb8e43a-f242-3d73-a453-aeb6a777ef7" = Err ParseDebugIdError_.
Proof. vm_compute. reflexivity. Qed.
Example test_parse_breakpad_zero :
  from_breakpad "DFB8E43AF2423D73A453AEB6A777EF750" = Ok (from_parts uuid_dfb8 0).
Proof. vm_compute. reflexivity. Qed.
Example test_parse_breakpad_error_long :
  from_breakpad "DFB8E43AF2423D73A453AEB6A777EF75feedface1" = Err ParseDebugIdError_.
Proof. vm_compute. reflexivity. Qed.
Example test_to_string_breakpad_short :
  breakpad (from_parts uuid_dfb8 10) = "DFB8E43AF2423D73A453AEB6A777EF75a".
Proof. vm_compute. reflexivity. Qed.
Example test_from_binary :
  inner (CodeId_from_binary (uuid.as_bytes uuid_dfb8)) = "dfb8e43af2423d73a453aeb6a777ef75".
Proof. vm_compute. reflexivity. Qed.

(** ** Generic string facts *)

Lemma append_empty_r (s : string) : s ++ "" = s.
Proof. induction s as [|c s IH]; simpl; [reflexivity | now rewrite IH]. Qed.

Lemma append_assoc (a b c : string) : (a ++ b) ++ c = a ++ (b ++ c).
Proof. induction a as [|x a IH]; simpl; [reflexivity | now rewrite IH]. Qed.

Lemma length_append (a b : string) : String.length (a ++ b) = (String.length a + String.length b)%nat.
Proof. induction a as [|x a IH]; simpl; [reflexivity | now rewrite IH]. Qed.

Lemma str_is_ascii_append (a b : string) :
  str_is_ascii (a ++ b) = str_is_ascii a && str_is_ascii b.
Proof. induction a as [|x a IH]; simpl; [reflexivity | now rewrite IH, andb_assoc]. Qed.

Lemma list_ascii_of_string_append (a b : string) :
  list_ascii_of_string (a ++ b) = (list_ascii_of_string a ++ list_ascii_of_string b)%list.
Proof. induction a as [|x a IH]; simpl; [reflexivity | now rewrite IH]. Qed.

Lemma string_of_list_ascii_app (l1 l2 : list ascii) :
  string_of_list_ascii (l1 ++ l2)%list = string_of_list_ascii l1 ++ string_of_list_ascii l2.
Proof. induction l1 as [|x l1 IH]; simpl; [reflexivity | now rewrite IH]. Qed.

Lemma length_string_of_list_ascii (l : list ascii) :
  String.length (string_of_list_ascii l) = List.length l.
Proof. induction l as [|x l IH]; simpl; [reflexivity | now rewrite IH]. Qed.

Lemma substring_0_append (a b : string) (n : nat) :
  n = String.length a -> substring 0 n (a ++ b) = a.
Proof.
  intros ->. induction a as [|x a IH]; simpl; [now destruct b | now rewrite IH].
Qed.

Lemma substring_0_full (s : string) : substring 0 (String.length s) s = s.
Proof. induction s as [|x s IH]; simpl; [reflexivity | now rewrite IH]. Qed.

Lemma substring_append_r (a b : string) (k n : nat) :
  substring (String.length a + k) n (a ++ b) = substring k n b.
Proof. induction a as [|x a IH]; simpl; [reflexivity | exact IH]. Qed.

Lemma str_slice_from_append (a b : string) :
  str_slice_from (a ++ b) (String.length a) = b.
Proof.
  unfold str_slice_from. rewrite length_append.
  replace (String.length a + String.length b - String.length a)%nat with (String.length b) by lia.
  rewrite <- (Nat.add_0_r (String.length a)) at 1.
  rewrite substring_append_r. apply substring_0_full.
Qed.

Lemma str_slice_from_cons (c : ascii) (s : string) : str_slice_from (String c s) 1 = s.
Proof. exact (str_slice_from_append (String c EmptyString) s). Qed.

(** On an ASCII string every offset up to its length is a char boundary. *)
Lemma is_char_boundary_ascii (s : string) (i : nat) :
  str_is_ascii s = true -> (i <= String.length s)%nat -> is_char_boundary s i = true.
Proof.
  intros Ha Hi. unfold is_char_boundary. destruct i as [|i]; [reflexivity|].
  destruct (String.get (S i) s) as [c|] eqn:Hg.
  - assert (Hc : is_ascii_char c = true).
    { clear Hi. revert s Ha Hg. generalize (S i) as j.
      intros j s. revert j. induction s as [|x s IH]; intros j Ha Hg; [discriminate|].
      simpl in Ha. apply andb_prop in Ha as [Hx Hs].
      destruct j; simpl in Hg; [congruence | exact (IH j Hs Hg)]. }
    unfold is_ascii_char in Hc. apply Z.ltb_lt in Hc.
    apply negb_true_iff, andb_false_iff. left. apply Z.leb_gt. lia.
  - apply Nat.eqb_eq. apply Nat.le_antisymm; [exact Hi|].
    destruct (Nat.le_gt_cases (String.length s) (S i)) as [H|H]; [exact H|].
    exfalso. clear Ha Hi. revert s H Hg. generalize (S i) as j.
    intros j s. revert j. induction s as [|x s IH]; intros j H Hg; simpl in H; [lia|].
    destruct j; simpl in Hg; [discriminate | apply (IH j); [lia | exact Hg]].
Qed.

Lemma str_get_ascii (s : string) (a b : nat) :
  str_is_ascii s = true -> (a <= b)%nat -> (b <= String.length s)%nat ->
  str_get s a b = Some (substring a (b - a) s).
Proof.
  intros Ha Hab Hb. unfold str_get.
  rewrite (is_char_boundary_ascii s a Ha ltac:(lia)), (is_char_boundary_ascii s b Ha Hb).
  apply Nat.leb_le in Hab. apply Nat.leb_le in Hb. now rewrite Hab, Hb.
Qed.

Lemma str_get_too_long (s : string) (a b : nat) :
  (String.length s < b)%nat -> str_get s a b = None.
Proof.
  intros H. unfold str_get.
  replace (Nat.leb b (String.length s)) with false by (symmetry; apply Nat.leb_gt; lia).
  now rewrite andb_false_r.
Qed.

(** ** Hex digit facts *)

Lemma digit16_cases (P : Z -> Prop) :
  P 0%Z -> P 1%Z -> P 2%Z -> P 3%Z -> P 4%Z -> P 5%Z -> P 6%Z -> P 7%Z ->
  P 8%Z -> P 9%Z -> P 10%Z -> P 11%Z -> P 12%Z -> P 13%Z -> P 14%Z -> P 15%Z ->
  forall d, is_digit16 d -> P d.
Proof.
  intros ? ? ? ? ? ? ? ? ? ? ? ? ? ? ? ? d Hd. unfold is_digit16 in Hd.
  assert (Hin : List.In d (map Z.of_nat (seq 0 16))).
  { apply in_map_iff. exists (Z.to_nat d). split; [lia | apply in_seq; lia]. }
  simpl in Hin. repeat (destruct Hin as [<-|Hin]; [assumption|]). destruct Hin.
Qed.

Lemma hex_digit_lower_ok : digit_char_ok hex_digit_lower.
Proof. unfold digit_char_ok. apply digit16_cases; vm_compute; auto. Qed.

Lemma hex_digit_upper_ok : digit_char_ok hex_digit_upper.
Proof. unfold digit_char_ok. apply digit16_cases; vm_compute; auto. Qed.

Lemma radix16_digits_rev_range (f : nat) (n : Z) :
  Forall is_digit16 (radix16_digits_rev f n).
Proof.
  revert n. induction f as [|f IH]; intros n; simpl; [constructor|].
  constructor; [unfold is_digit16; apply Z.mod_pos_bound; lia|].
  destruct (n / 16 =? 0)%Z; [constructor | apply IH].
Qed.

Lemma radix16_digits_rev_length (f : nat) (n : Z) :
  (1 <= List.length (radix16_digits_rev (S f) n) <= S f)%nat.
Proof.
  revert n. induction f as [|f IH]; intros n; simpl.
  - destruct (n / 16 =? 0)%Z; simpl; lia.
  - destruct (n / 16 =? 0)%Z; simpl; [lia|]. specialize (IH (n / 16)%Z). simpl in IH. lia.
Qed.

Lemma fold_digit_step_snoc (l : list Z) (d acc : Z) :
  fold_left digit_step (l ++ [d]) acc = digit_step (fold_left digit_step l acc) d.
Proof. now rewrite fold_left_app. Qed.

Lemma radix16_digits_rev_value (f : nat) (n : Z) :
  (0 <= n < 16 ^ Z.of_nat f)%Z -> digits_value (rev (radix16_digits_rev f n)) = n.
Proof.
  revert n. induction f as [|f IH]; intros n Hn.
  - simpl in *. unfold digits_value. simpl. lia.
  - simpl. unfold digits_value. rewrite fold_digit_step_snoc. fold (digits_value (rev (if (n / 16 =? 0)%Z then [] else radix16_digits_rev f (n / 16)))).
    unfold digit_step.
    destruct (Z.eqb_spec (n / 16) 0) as [H0|H0].
    + cbn. pose proof (Z.div_mod n 16). lia.
    + rewrite IH.
      * pose proof (Z.div_mod n 16). lia.
      * rewrite Nat2Z.inj_succ, Z.pow_succ_r in Hn by lia.
        split; [apply Z.div_pos; lia | apply Z.div_lt_upper_bound; lia].
Qed.

Lemma fold_digit_step_mono (l : list Z) (acc : Z) :
  (0 <= acc)%Z -> Forall is_digit16 l -> (acc <= fold_left digit_step l acc)%Z.
Proof.
  revert acc. induction l as [|d l IH]; intros acc Hacc Hl; simpl; [lia|].
  inversion Hl as [|? ? Hd Hl']; subst. unfold is_digit16 in Hd.
  assert (H0 : (0 <= digit_step acc d)%Z) by (unfold digit_step; lia).
  specialize (IH (digit_step acc d) H0 Hl'). unfold digit_step in *. lia.
Qed.

Lemma u32_radix16_digits_ok (hc : Z -> ascii) (Hhc : digit_char_ok hc) (l : list Z) (acc : Z) :
  (0 <= acc)%Z -> Forall is_digit16 l -> (fold_left digit_step l acc < 2 ^ 32)%Z ->
  u32_radix16_digits acc (string_of_list_ascii (map hc l)) = Some (fold_left digit_step l acc).
Proof.
  revert acc. induction l as [|d l IH]; intros acc Hacc Hl Hlt; [reflexivity|].
  cbn [map string_of_list_ascii u32_radix16_digits fold_left] in *.
  inversion Hl as [|? ? Hd Hl']; subst.
  destruct (Hhc d Hd) as [-> _].
  assert (H0 : (0 <= digit_step acc d)%Z) by (unfold digit_step, is_digit16 in *; lia).
  pose proof (fold_digit_step_mono l (digit_step acc d) H0 Hl') as Hm.
  assert (Hs : digit_step acc d = (acc * 16 + d)%Z) by reflexivity.
  unfold is_digit16 in Hd.
  destruct (Z.ltb_spec (acc * 16) (2 ^ 32)); [|lia].
  destruct (Z.ltb_spec (acc * 16 + d) (2 ^ 32)); [|lia].
  apply IH; [lia | exact Hl' | exact Hlt].
Qed.

Lemma u32_from_str_radix16_digits (hc : Z -> ascii) (Hhc : digit_char_ok hc) (l : list Z) :
  l <> [] -> Forall is_digit16 l -> (digits_value l < 2 ^ 32)%Z ->
  u32_from_str_radix16 (string_of_list_ascii (map hc l)) = Some (digits_value l).
Proof.
  intros Hne Hl Hlt. destruct l as [|d l']; [congruence|].
  inversion Hl as [|? ? Hd _]; subst.
  destruct (Hhc d Hd) as (_ & Hplus & Hminus & _).
  unfold u32_from_str_radix16. cbn [map string_of_list_ascii].
  rewrite Hplus, Hminus. simpl orb. simpl andb.
  exact (u32_radix16_digits_ok hc Hhc (d :: l') 0%Z ltac:(lia) Hl Hlt).
Qed.

(** ** Facts about [{:x}] and [{:08X}] on [u32] *)

Lemma u32_hex_digits_range (n : Z) : Forall is_digit16 (u32_hex_digits n).
Proof. unfold u32_hex_digits. apply Forall_rev, radix16_digits_rev_range. Qed.

Lemma u32_hex_digits_length (n : Z) :
  (1 <= List.length (u32_hex_digits n) <= 8)%nat.
Proof. unfold u32_hex_digits. rewrite length_rev. apply radix16_digits_rev_length. Qed.

Lemma u32_hex_digits_value (n : Z) :
  (0 <= n < 2 ^ 32)%Z -> digits_value (u32_hex_digits n) = n.
Proof. intros H. apply radix16_digits_rev_value. change (16 ^ Z.of_nat 8)%Z with (2 ^ 32)%Z. exact H. Qed.

Lemma u32_hex_digits_nonempty (n : Z) : u32_hex_digits n <> [].
Proof. intros He. pose proof (u32_hex_digits_length n) as Hl. rewrite He in Hl. simpl in Hl. lia. Qed.

Lemma digits_value_zeros (k : nat) (l : list Z) :
  digits_value (repeat 0%Z k ++ l) = digits_value l.
Proof.
  unfold digits_value. rewrite fold_left_app. f_equal.
  induction k as [|k IH]; simpl; [reflexivity | exact IH].
Qed.

Lemma fmt_08X_digits (n : Z) :
  fmt_08X n = string_of_list_ascii
    (map hex_digit_upper (repeat 0%Z (8 - List.length (u32_hex_digits n)) ++ u32_hex_digits n)).
Proof.
  unfold fmt_08X, pad_zeros, fmt_X.
  rewrite map_app, string_of_list_ascii_app, map_repeat, length_string_of_list_ascii, length_map.
  reflexivity.
Qed.

Lemma fmt_08X_as_digits (n : Z) :
  exists l, fmt_08X n = string_of_list_ascii (map hex_digit_upper l) /\ l <> [] /\
    Forall is_digit16 l /\ List.length l = 8%nat /\
    ((0 <= n < 2 ^ 32)%Z -> digits_value l = n).
Proof.
  eexists. split; [apply fmt_08X_digits|].
  pose proof (u32_hex_digits_length n). pose proof (u32_hex_digits_range n).
  split; [|split; [|split]].
  - intros He. apply app_eq_nil in He as [_ He]. exact (u32_hex_digits_nonempty n He).
  - apply Forall_app. split; [apply Forall_forall; intros x Hx; apply repeat_spec in Hx; subst; unfold is_digit16; lia | assumption].
  - rewrite length_app, repeat_length. lia.
  - intros Hn. rewrite digits_value_zeros. now apply u32_hex_digits_value.
Qed.

Lemma fmt_x_as_digits (n : Z) :
  exists l, fmt_x n = string_of_list_ascii (map hex_digit_lower l) /\ l <> [] /\
    Forall is_digit16 l /\ (1 <= List.length l <= 8)%nat /\
    ((0 <= n < 2 ^ 32)%Z -> digits_value l = n).
Proof.
  exists (u32_hex_digits n). split; [reflexivity|].
  split; [apply u32_hex_digits_nonempty|]. split; [apply u32_hex_digits_range|].
  split; [apply u32_hex_digits_length|]. apply u32_hex_digits_value.
Qed.

(** Strings of digit characters. *)
Lemma digit_string_ascii (hc : Z -> ascii) (Hhc : digit_char_ok hc) (l : list Z) :
  Forall is_digit16 l -> str_is_ascii (string_of_list_ascii (map hc l)) = true.
Proof.
  induction 1 as [|d l Hd _ IH]; [reflexivity|]. simpl. rewrite IH.
  destruct (Hhc d Hd) as (_ & _ & _ & ->). reflexivity.
Qed.

Lemma digit_string_no_hyphen (hc : Z -> ascii) (Hhc : digit_char_ok hc) (l : list Z) :
  Forall is_digit16 l -> ~ List.In "-"%char (list_ascii_of_string (string_of_list_ascii (map hc l))).
Proof.
  rewrite list_ascii_of_string_of_list_ascii. intros Hl Hin.
  apply in_map_iff in Hin as (d & Hd & Hin). rewrite Forall_forall in Hl.
  destruct (Hhc d (Hl d Hin)) as (_ & _ & Hm & _). rewrite Hd in Hm. discriminate.
Qed.

Lemma digit_string_head (hc : Z -> ascii) (Hhc : digit_char_ok hc) (l : list Z) :
  l <> [] -> Forall is_digit16 l ->
  exists c r, string_of_list_ascii (map hc l) = String c r /\ Ascii.eqb c "-" = false.
Proof.
  intros Hne Hl. destruct l as [|d l]; [congruence|]. inversion Hl; subst.
  exists (hc d), (string_of_list_ascii (map hc l)). split; [reflexivity|].
  now destruct (Hhc d) as (_ & _ & ? & _).
Qed.

Lemma digit_string_from_str (hc : Z -> ascii) (Hhc : digit_char_ok hc) (l : list Z) (n : Z) :
  l <> [] -> Forall is_digit16 l -> (0 <= n < 2 ^ 32)%Z -> digits_value l = n ->
  u32_from_str_radix16 (string_of_list_ascii (map hc l)) = Some n.
Proof.
  intros Hne Hl Hn <-. apply u32_from_str_radix16_digits; auto. lia.
Qed.

Lemma fmt_x_from_str (n : Z) : (0 <= n < 2 ^ 32)%Z -> u32_from_str_radix16 (fmt_x n) = Some n.
Proof.
  intros Hn. destruct (fmt_x_as_digits n) as (l & -> & Hne & Hl & _ & Hv).
  apply (digit_string_from_str _ hex_digit_lower_ok); auto.
Qed.

Lemma fmt_08X_from_str (n : Z) : (0 <= n < 2 ^ 32)%Z -> u32_from_str_radix16 (fmt_08X n) = Some n.
Proof.
  intros Hn. destruct (fmt_08X_as_digits n) as (l & -> & Hne & Hl & _ & Hv).
  apply (digit_string_from_str _ hex_digit_upper_ok); auto.
Qed.

Lemma fmt_x_length (n : Z) : (1 <= String.length (fmt_x n) <= 8)%nat.
Proof.
  destruct (fmt_x_as_digits n) as (l & -> & _ & _ & Hlen & _).
  now rewrite length_string_of_list_ascii, length_map.
Qed.

Lemma fmt_08X_length (n : Z) : String.length (fmt_08X n) = 8%nat.
Proof.
  destruct (fmt_08X_as_digits n) as (l & -> & _ & _ & Hlen & _).
  now rewrite length_string_of_list_ascii, length_map.
Qed.

Lemma fmt_x_ascii (n : Z) : str_is_ascii (fmt_x n) = true.
Proof.
  destruct (fmt_x_as_digits n) as (l & -> & _ & Hl & _).
  exact (digit_string_ascii _ hex_digit_lower_ok l Hl).
Qed.

Lemma fmt_08X_ascii (n : Z) : str_is_ascii (fmt_08X n) = true.
Proof.
  destruct (fmt_08X_as_digits n) as (l & -> & _ & Hl & _).
  exact (digit_string_ascii _ hex_digit_upper_ok l Hl).
Qed.

Lemma fmt_x_head (n : Z) : exists c r, fmt_x n = String c r /\ Ascii.eqb c "-" = false.
Proof.
  destruct (fmt_x_as_digits n) as (l & -> & Hne & Hl & _).
  exact (digit_string_head _ hex_digit_lower_ok l Hne Hl).
Qed.

Lemma fmt_08X_no_hyphen (n : Z) : ~ List.In "-"%char (list_ascii_of_string (fmt_08X n)).
Proof.
  destruct (fmt_08X_as_digits n) as (l & -> & _ & Hl & _).
  exact (digit_string_no_hyphen _ hex_digit_upper_ok l Hl).
Qed.

Lemma fmt_x_zero : fmt_x 0 = "0".
Proof. reflexivity. Qed.

(** ** Facts about the [uuid] model *)

Lemma nibbles_ok (b : byte) :
  is_digit16 (uuid.hi_nibble b) /\ is_digit16 (uuid.lo_nibble b) /\
  uuid.byte_of_Z (uuid.hi_nibble b * 16 + uuid.lo_nibble b) = b.
Proof.
  pose proof (Byte.to_N_bounded b) as Hb. unfold uuid.hi_nibble, uuid.lo_nibble, is_digit16.
  set (n := Z.of_N (Byte.to_N b)).
  assert (Hn : (0 <= n <= 255)%Z) by (unfold n; lia).
  split; [split; [apply Z.div_pos; lia | apply Z.div_lt_upper_bound; lia]|].
  split; [apply Z.mod_pos_bound; lia|].
  unfold uuid.byte_of_Z. rewrite Z.mul_comm, <- Z.div_mod by lia.
  unfold n. rewrite N2Z.id, Byte.of_to_N. reflexivity.
Qed.

Lemma hex_pairs_fmt_bytes (hc : Z -> ascii) (Hhc : digit_char_ok hc) (f : byte -> string)
  (Hf : forall b, f b = String (hc (uuid.hi_nibble b)) (String (hc (uuid.lo_nibble b)) EmptyString))
  (l : list byte) :
  uuid.hex_pairs (uuid.fmt_bytes f l) = Some l.
Proof.
  induction l as [|b l IH]; [reflexivity|].
  simpl. rewrite Hf. simpl. rewrite IH.
  destruct (nibbles_ok b) as (Hh & Hl & Hv).
  destruct (Hhc _ Hh) as [-> _]. destruct (Hhc _ Hl) as [-> _]. now rewrite Hv.
Qed.

Lemma fmt_bytes_ascii (hc : Z -> ascii) (Hhc : digit_char_ok hc) (f : byte -> string)
  (Hf : forall b, f b = String (hc (uuid.hi_nibble b)) (String (hc (uuid.lo_nibble b)) EmptyString))
  (l : list byte) :
  str_is_ascii (uuid.fmt_bytes f l) = true.
Proof.
  induction l as [|b l IH]; [reflexivity|].
  simpl. rewrite Hf. simpl. rewrite IH.
  destruct (nibbles_ok b) as (Hh & Hl & _).
  destruct (Hhc _ Hh) as (_ & _ & _ & ->). destruct (Hhc _ Hl) as (_ & _ & _ & ->). reflexivity.
Qed.

Lemma fmt_bytes_no_hyphen (hc : Z -> ascii) (Hhc : digit_char_ok hc) (f : byte -> string)
  (Hf : forall b, f b = String (hc (uuid.hi_nibble b)) (String (hc (uuid.lo_nibble b)) EmptyString))
  (l : list byte) :
  ~ List.In "-"%char (list_ascii_of_string (uuid.fmt_bytes f l)).
Proof.
  induction l as [|b l IH]; [simpl; tauto|].
  simpl. rewrite Hf. simpl. destruct (nibbles_ok b) as (Hh & Hl & _).
  destruct (Hhc _ Hh) as (_ & _ & Hh' & _). destruct (Hhc _ Hl) as (_ & _ & Hl' & _).
  intros [E|[E|E]].
  - rewrite E in Hh'. discriminate.
  - rewrite E in Hl'. discriminate.
  - exact (IH E).
Qed.

Lemma fmt_02x_shape (b : byte) :
  uuid.fmt_02x b = String (hex_digit_lower (uuid.hi_nibble b)) (String (hex_digit_lower (uuid.lo_nibble b)) EmptyString).
Proof. reflexivity. Qed.

Lemma fmt_02X_shape (b : byte) :
  uuid.fmt_02X b = String (hex_digit_upper (uuid.hi_nibble b)) (String (hex_digit_upper (uuid.lo_nibble b)) EmptyString).
Proof. reflexivity. Qed.

Lemma of_list_as_bytes (u : uuid.Uuid) : uuid.of_list (uuid.as_bytes u) = Some u.
Proof. destruct u; reflexivity. Qed.

Lemma to_hyphenated_length (u : uuid.Uuid) : String.length (uuid.to_hyphenated u) = 36%nat.
Proof. destruct u; reflexivity. Qed.

Lemma to_simple_upper_length (u : uuid.Uuid) : String.length (uuid.to_simple_upper u) = 32%nat.
Proof. destruct u; reflexivity. Qed.

Lemma to_hyphenated_digits (u : uuid.Uuid) :
  uuid.drop_group_hyphens 0 (uuid.to_hyphenated u) = uuid.fmt_bytes uuid.fmt_02x (uuid.as_bytes u).
Proof. destruct u; reflexivity. Qed.

Lemma to_hyphenated_hyphens (u : uuid.Uuid) : uuid.hyphens_in_place 0 (uuid.to_hyphenated u) = true.
Proof. destruct u; reflexivity. Qed.

Lemma parse_to_hyphenated (u : uuid.Uuid) : uuid.parse_str (uuid.to_hyphenated u) = Some u.
Proof.
  unfold uuid.parse_str. rewrite to_hyphenated_length. simpl Nat.eqb. cbv iota.
  unfold uuid.parse_hyphenated. rewrite to_hyphenated_hyphens, to_hyphenated_digits.
  rewrite (hex_pairs_fmt_bytes _ hex_digit_lower_ok _ fmt_02x_shape).
  apply of_list_as_bytes.
Qed.

Lemma parse_to_simple_upper (u : uuid.Uuid) : uuid.parse_str (uuid.to_simple_upper u) = Some u.
Proof.
  unfold uuid.parse_str. rewrite to_simple_upper_length. simpl Nat.eqb. cbv iota.
  unfold uuid.to_simple_upper.
  rewrite (hex_pairs_fmt_bytes _ hex_digit_upper_ok _ fmt_02X_shape).
  apply of_list_as_bytes.
Qed.

Lemma to_hyphenated_ascii (u : uuid.Uuid) : str_is_ascii (uuid.to_hyphenated u) = true.
Proof.
  unfold uuid.to_hyphenated. repeat rewrite str_is_ascii_append.
  repeat rewrite (fmt_bytes_ascii _ hex_digit_lower_ok _ fmt_02x_shape). reflexivity.
Qed.

Lemma to_simple_upper_ascii (u : uuid.Uuid) : str_is_ascii (uuid.to_simple_upper u) = true.
Proof. exact (fmt_bytes_ascii _ hex_digit_upper_ok _ fmt_02X_shape _). Qed.

Lemma to_hyphenated_at_8 (u : uuid.Uuid) : substring 8 1 (uuid.to_hyphenated u) = "-".
Proof. destruct u; reflexivity. Qed.

Lemma to_simple_upper_at_8 (u : uuid.Uuid) : String.eqb (substring 8 1 (uuid.to_simple_upper u)) "-" = false.
Proof.
  destruct u as [b0 b1 b2 b3 b4 b5 b6 b7 b8 b9 b10 b11 b12 b13 b14 b15].
  change (substring 8 1 _) with (String (hex_digit_upper (uuid.hi_nibble b4)) EmptyString).
  destruct (nibbles_ok b4) as (Hh & _ & _). destruct (hex_digit_upper_ok _ Hh) as (_ & _ & Hm & _).
  simpl. now rewrite Hm.
Qed.

(** The hyphenated form ends in the six digit groups of the last bytes. *)
Lemma to_hyphenated_tail (u : uuid.Uuid) :
  exists p, uuid.to_hyphenated u =
    p ++ uuid.fmt_bytes uuid.fmt_02x [uuid.u10 u; uuid.u11 u; uuid.u12 u; uuid.u13 u; uuid.u14 u; uuid.u15 u]
    /\ String.length (uuid.fmt_bytes uuid.fmt_02x [uuid.u10 u; uuid.u11 u; uuid.u12 u; uuid.u13 u; uuid.u14 u; uuid.u15 u]) = 12%nat.
Proof.
  unfold uuid.to_hyphenated. repeat rewrite <- append_assoc. eexists. split; [reflexivity|].
  reflexivity.
Qed.

(** ** The two branches of [parse_str] *)

Lemma substring_append_l (a b : string) (n m : nat) :
  (n + m <= String.length a)%nat -> substring n m (a ++ b) = substring n m a.
Proof.
  revert n m. induction a as [|x a IH]; intros n m H; simpl in H.
  - assert (n = 0%nat) by lia. assert (m = 0%nat) by lia. subst. now destruct b.
  - destruct n as [|n]; simpl.
    + destruct m as [|m]; [reflexivity|]. f_equal. apply (IH 0%nat). lia.
    + apply IH. lia.
Qed.

Lemma hyphen_at_8_ascii (s : string) :
  str_is_ascii s = true -> (9 <= String.length s)%nat ->
  hyphen_at_8 s = String.eqb (substring 8 1 s) "-".
Proof.
  intros Ha Hl. unfold hyphen_at_8. rewrite (str_get_ascii s 8 9 Ha); [reflexivity | lia | lia].
Qed.

Lemma parse_str_hyphen_rejected (s : string) (o : ParseOptions) :
  hyphen_at_8 s = true -> allow_hyphens o = false -> parse_str s o = None.
Proof. intros H1 H2. unfold parse_str. cbv zeta. now rewrite H1, H2. Qed.

(** Steps 4 to 8: an ASCII string made of a UUID text of 36 (hyphenated) or
    32 characters and a tail. *)
Lemma parse_str_uuid_form (s p tail : string) (o : ParseOptions) (u : uuid.Uuid) (h : bool) :
  s = p ++ tail -> str_is_ascii s = true -> uuid.parse_str p = Some u ->
  String.length p = (if h then 36 else 32)%nat ->
  String.eqb (substring 8 1 p) "-" = h ->
  (h = true -> allow_hyphens o = true) ->
  parse_str s o =
    if negb (require_appendix o) && String.eqb tail "" then Some (from_parts u 0)
    else if xorb h (starts_with_hyphen tail) then None
    else
      let t := if h then str_slice_from tail 1 else tail in
      let t := if allow_tail o && Nat.ltb 8 (String.length t) then str_slice_to t 8 else t in
      match u32_from_str_radix16 t with Some a => Some (from_parts u a) | None => None end.
Proof.
  intros -> Ha Hp Hlen Hh8 Hallow.
  assert (Hlp : (32 <= String.length p)%nat) by (destruct h; lia).
  assert (Hhy : hyphen_at_8 (p ++ tail) = h).
  { rewrite hyphen_at_8_ascii by (auto; rewrite length_append; lia).
    rewrite substring_append_l by lia. exact Hh8. }
  unfold parse_str. cbv zeta. rewrite Hhy, Ha.
  replace (h && negb (allow_hyphens o) || negb true) with false
    by (destruct h; [now rewrite Hallow | reflexivity]).
  replace (pdb20_window h (String.length (p ++ tail))) with false.
  2:{ unfold pdb20_window. rewrite length_append.
      replace (Nat.leb (String.length p + String.length tail) 17) with false
        by (symmetry; apply Nat.leb_gt; lia).
      replace (Nat.leb (String.length p + String.length tail) 16) with false
        by (symmetry; apply Nat.leb_gt; lia).
      now rewrite !andb_false_r. }
  replace (if h then 36%nat else 32%nat) with (String.length p) by (destruct h; auto).
  unfold str_get_to. rewrite str_get_ascii by (auto; rewrite ?length_append; lia).
  rewrite Nat.sub_0_r, substring_0_append by reflexivity. rewrite Hp.
  replace (Nat.eqb (String.length (p ++ tail)) (String.length p)) with (String.eqb tail "").
  2:{ rewrite length_append. destruct tail as [|c t]; simpl.
      - symmetry. apply Nat.eqb_eq. lia.
      - symmetry. apply Nat.eqb_neq. lia. }
  rewrite str_slice_from_append. reflexivity.
Qed.

(** Step 3: an ASCII string in the PDB 2.0 length window. *)
Lemma parse_str_pdb20 (s : string) (o : ParseOptions) :
  str_is_ascii s = true ->
  (hyphen_at_8 s = true -> allow_hyphens o = true) ->
  pdb20_window (hyphen_at_8 s) (String.length s) = true ->
  parse_str s o =
    let k := if hyphen_at_8 s then 9%nat else 8%nat in
    match u32_from_str_radix16 (substring 0 8 s) with
    | None => None
    | Some timestamp =>
        match u32_from_str_radix16 (substring k (String.length s - k) s) with
        | None => None
        | Some a => Some (from_timestamp_age timestamp a)
        end
    end.
Proof.
  intros Ha Hallow Hw.
  assert (Hl : (9 <= String.length s)%nat).
  { unfold pdb20_window in Hw. destruct (hyphen_at_8 s); cbn [andb orb negb] in Hw;
      rewrite ?orb_false_r in Hw; apply andb_prop in Hw as [Hw _]; apply Nat.leb_le in Hw; lia. }
  unfold parse_str. cbv zeta. rewrite Ha, Hw.
  replace (hyphen_at_8 s && negb (allow_hyphens o) || negb true) with false
    by (destruct (hyphen_at_8 s); [now rewrite Hallow | reflexivity]).
  unfold str_get_to, str_get_from. rewrite str_get_ascii by (auto; lia).
  rewrite Nat.sub_0_r. cbv zeta.
  destruct (u32_from_str_radix16 (substring 0 8 s)); [|reflexivity].
  destruct (hyphen_at_8 s); rewrite str_get_ascii by (auto; lia); reflexivity.
Qed.

(** Where the PDB 2.0 window matches, the result is never a UUID. *)
Lemma parse_str_pdb20_is_pdb20 (s : string) (o : ParseOptions) (d : DebugId) :
  pdb20_window (hyphen_at_8 s) (String.length s) = true ->
  parse_str s o = Some d -> is_pdb20 d = true.
Proof.
  intros Hw. unfold parse_str. cbv zeta. rewrite Hw.
  destruct (_ || _); [discriminate|].
  destruct (str_get_to s 8); [|discriminate].
  destruct (u32_from_str_radix16 _); [|discriminate].
  destruct (if hyphen_at_8 s then _ else _); [|discriminate].
  destruct (u32_from_str_radix16 _); [|discriminate].
  intros H. inversion H. reflexivity.
Qed.

(** ** Round trips of the two string forms *)

Lemma from_str_parse_str (s : string) :
  from_str s = match parse_str s general_options with Some d => Ok d | None => Err ParseDebugIdError_ end.
Proof. reflexivity. Qed.

Lemma from_breakpad_parse_str (s : string) :
  from_breakpad s = match parse_str s breakpad_options with Some d => Ok d | None => Err ParseDebugIdError_ end.
Proof. reflexivity. Qed.

Lemma roundtrip_uuid_default (u : uuid.Uuid) (a : Z) :
  (0 <= a < 2 ^ 32)%Z -> from_str (to_string (from_parts u a)) = Ok (from_parts u a).
Proof.
  intros Ha. rewrite from_str_parse_str. unfold to_string. cbn [id appendix from_parts].
  destruct (Z.ltb_spec 0 a) as [Hpos|Hz].
  - rewrite (parse_str_uuid_form _ (uuid.to_hyphenated u) ("-" ++ fmt_x a) _ u true);
      [| reflexivity
       | rewrite str_is_ascii_append, to_hyphenated_ascii; simpl; apply fmt_x_ascii
       | apply parse_to_hyphenated | apply to_hyphenated_length
       | rewrite to_hyphenated_at_8; reflexivity | reflexivity].
    change ("-" ++ fmt_x a) with (String "-" (fmt_x a)).
    rewrite str_slice_from_cons. cbv zeta.
    pose proof (fmt_x_length a) as Hl.
    replace (Nat.ltb 8 (String.length (fmt_x a))) with false by (symmetry; apply Nat.ltb_ge; lia).
    rewrite (andb_false_r (allow_tail general_options)). cbv beta iota.
    rewrite fmt_x_from_str by exact Ha. reflexivity.
  - assert (a = 0%Z) by lia. subst a.
    rewrite (parse_str_uuid_form _ (uuid.to_hyphenated u) "" _ u true);
      [| reflexivity
       | rewrite str_is_ascii_append, to_hyphenated_ascii; reflexivity
       | apply parse_to_hyphenated | apply to_hyphenated_length
       | rewrite to_hyphenated_at_8; reflexivity | reflexivity].
    reflexivity.
Qed.

Lemma roundtrip_uuid_breakpad (u : uuid.Uuid) (a : Z) :
  (0 <= a < 2 ^ 32)%Z -> from_breakpad (breakpad (from_parts u a)) = Ok (from_parts u a).
Proof.
  intros Ha. rewrite from_breakpad_parse_str. unfold breakpad. cbn [id appendix from_parts].
  rewrite (parse_str_uuid_form _ (uuid.to_simple_upper u) (fmt_x a) _ u false);
    [| reflexivity
     | rewrite str_is_ascii_append, to_simple_upper_ascii, fmt_x_ascii; reflexivity
     | apply parse_to_simple_upper | apply to_simple_upper_length
     | apply to_simple_upper_at_8 | discriminate].
  destruct (fmt_x_head a) as (c & r & Hcr & Hc).
  cbn [breakpad_options require_appendix allow_tail negb andb xorb].
  rewrite Hcr. cbn [starts_with_hyphen]. rewrite Hc. cbn [xorb andb]. rewrite <- Hcr.
  now rewrite fmt_x_from_str.
Qed.

Lemma roundtrip_pdb20_breakpad (t a : Z) :
  (0 <= t < 2 ^ 32)%Z -> (0 <= a < 2 ^ 32)%Z ->
  from_breakpad (breakpad (from_timestamp_age t a)) = Ok (from_timestamp_age t a).
Proof.
  intros Ht Ha. rewrite from_breakpad_parse_str. unfold breakpad. cbn [id appendix from_timestamp_age].
  set (s := fmt_08X t ++ fmt_x a).
  assert (Hasc : str_is_ascii s = true) by (unfold s; now rewrite str_is_ascii_append, fmt_08X_ascii, fmt_x_ascii).
  pose proof (fmt_x_length a) as Hxl. pose proof (fmt_08X_length t) as H8.
  assert (Hlen : String.length s = (8 + String.length (fmt_x a))%nat) by (unfold s; now rewrite length_append, H8).
  assert (Hh : hyphen_at_8 s = false).
  { rewrite hyphen_at_8_ascii by (auto; lia). unfold s.
    rewrite <- H8, <- (Nat.add_0_r (String.length (fmt_08X t))), substring_append_r.
    destruct (fmt_x_head a) as (c & r & -> & Hc). simpl. now rewrite Hc. }
  rewrite parse_str_pdb20; [| exact Hasc | rewrite Hh; discriminate |].
  2:{ rewrite Hh, Hlen. unfold pdb20_window. cbn [andb orb negb].
      apply andb_true_intro; split; apply Nat.leb_le; lia. }
  rewrite Hh. cbv zeta. unfold s.
  rewrite substring_0_append by (symmetry; exact H8). rewrite fmt_08X_from_str by exact Ht.
  rewrite length_append, H8, <- H8, <- (Nat.add_0_r (String.length (fmt_08X t))) at 1.
  rewrite substring_append_r.
  match goal with
  | |- context [substring 0 ?k (fmt_x a)] => replace k with (String.length (fmt_x a)) by lia
  end.
  rewrite substring_0_full, fmt_x_from_str by exact Ha. reflexivity.
Qed.

Lemma roundtrip_pdb20_default_nonzero (t a : Z) :
  (0 <= t < 2 ^ 32)%Z -> (0 < a < 2 ^ 32)%Z ->
  from_str (to_string (from_timestamp_age t a)) = Ok (from_timestamp_age t a).
Proof.
  intros Ht Ha. rewrite from_str_parse_str. unfold to_string. cbn [id appendix from_timestamp_age].
  replace (0 <? a)%Z with true by (symmetry; apply Z.ltb_lt; lia).
  set (s := fmt_08X t ++ "-" ++ fmt_x a).
  assert (Hs : s = (fmt_08X t ++ "-") ++ fmt_x a) by (unfold s; now rewrite append_assoc).
  assert (Hasc : str_is_ascii s = true) by (unfold s; now rewrite !str_is_ascii_append, fmt_08X_ascii, fmt_x_ascii).
  pose proof (fmt_x_length a) as Hxl. pose proof (fmt_08X_length t) as H8.
  assert (H9 : String.length (fmt_08X t ++ "-") = 9%nat) by (rewrite length_append, H8; reflexivity).
  assert (Hlen : String.length s = (9 + String.length (fmt_x a))%nat) by (rewrite Hs, length_append, H9; reflexivity).
  assert (Hh : hyphen_at_8 s = true).
  { rewrite hyphen_at_8_ascii by (auto; lia). unfold s.
    rewrite <- H8, <- (Nat.add_0_r (String.length (fmt_08X t))), substring_append_r.
    destruct (fmt_x_head a) as (c & r & -> & _). reflexivity. }
  rewrite parse_str_pdb20; [| exact Hasc | reflexivity |].
  2:{ rewrite Hh, Hlen. unfold pdb20_window. cbn [andb orb negb]. rewrite orb_false_r.
      apply andb_true_intro; split; apply Nat.leb_le; lia. }
  rewrite Hh. cbv zeta.
  unfold s at 1. rewrite substring_0_append by (symmetry; exact H8). rewrite fmt_08X_from_str by exact Ht.
  assert (E : substring 9 (String.length s - 9) s = fmt_x a).
  { rewrite Hlen, Hs. replace (9 + String.length (fmt_x a) - 9)%nat with (String.length (fmt_x a)) by lia.
    rewrite <- H9 at 1. rewrite <- (Nat.add_0_r (String.length (fmt_08X t ++ "-"))) at 1.
    rewrite substring_append_r. apply substring_0_full. }
  rewrite E, fmt_x_from_str by lia. reflexivity.
Qed.

(** ** CodeId facts *)

Lemma lowercase_hexdigit (c : ascii) :
  is_ascii_hexdigit c = true -> is_lower_hexdigit (to_ascii_lowercase c) = true.
Proof.
  destruct c as [[] [] [] [] [] [] [] []]; vm_compute; intros H; first [reflexivity | discriminate].
Qed.

Lemma hex_digit_lower_code (d : Z) :
  is_digit16 d ->
  is_ascii_hexdigit (hex_digit_lower d) = true /\ to_ascii_lowercase (hex_digit_lower d) = hex_digit_lower d.
Proof. revert d. apply digit16_cases; vm_compute; auto. Qed.

Lemma retain_hexdigits_append (a b : string) :
  retain_hexdigits (a ++ b) = retain_hexdigits a ++ retain_hexdigits b.
Proof.
  induction a as [|c a IH]; simpl; [reflexivity|].
  destruct (is_ascii_hexdigit c); simpl; now rewrite IH.
Qed.

Lemma make_ascii_lowercase_append (a b : string) :
  make_ascii_lowercase (a ++ b) = make_ascii_lowercase a ++ make_ascii_lowercase b.
Proof. induction a as [|c a IH]; simpl; [reflexivity | now rewrite IH]. Qed.

Lemma fmt_02x_code (b : byte) :
  retain_hexdigits (uuid.fmt_02x b) = uuid.fmt_02x b /\
  make_ascii_lowercase (uuid.fmt_02x b) = uuid.fmt_02x b.
Proof.
  destruct (nibbles_ok b) as (Hh & Hl & _).
  destruct (hex_digit_lower_code _ Hh) as [Hh1 Hh2]. destruct (hex_digit_lower_code _ Hl) as [Hl1 Hl2].
  rewrite fmt_02x_shape. simpl. rewrite Hh1, Hl1, Hh2, Hl2. split; reflexivity.
Qed.

Lemma fold_append_fmt_bytes (l : list byte) (acc : string) :
  fold_left (fun acc b => acc ++ uuid.fmt_02x b) l acc = acc ++ uuid.fmt_bytes uuid.fmt_02x l.
Proof.
  revert acc. induction l as [|b l IH]; intros acc; simpl.
  - now rewrite append_empty_r.
  - rewrite IH. now rewrite append_assoc.
Qed.

Lemma CodeId_from_binary_inner (l : list byte) :
  inner (CodeId_from_binary l) = uuid.fmt_bytes uuid.fmt_02x l.
Proof.
  unfold CodeId_from_binary, CodeId_new. cbn [inner]. rewrite fold_append_fmt_bytes.
  change (EmptyString ++ ?x) with x.
  induction l as [|b l IH]; [reflexivity|]. cbn [uuid.fmt_bytes].
  rewrite retain_hexdigits_append, make_ascii_lowercase_append, IH.
  destruct (fmt_02x_code b) as [-> ->]. reflexivity.
Qed.

Lemma CodeId_new_lower (s : string) :
  Forall (fun c => is_lower_hexdigit c = true) (list_ascii_of_string (inner (CodeId_new s))).
Proof.
  unfold CodeId_new. simpl inner. induction s as [|c s IH]; simpl; [constructor|].
  destruct (is_ascii_hexdigit c) eqn:Hc; simpl; [|exact IH].
  constructor; [now apply lowercase_hexdigit | exact IH].
Qed.

(** ** Facts about UUID texts and hex-digit strings *)

Lemma to_digit16_spec (c : ascii) (d : Z) :
  to_digit16 c = Some d ->
  (0 <= d < 16)%Z /\ is_ascii_char c = true /\ Ascii.eqb c "+" = false /\ Ascii.eqb c "-" = false.
Proof.
  intros H.
  assert (Hd : (0 <= d < 16 /\ byte_val c < 128)%Z).
  { revert H. unfold to_digit16.
    destruct ((48 <=? byte_val c)%Z && (byte_val c <=? 57)%Z) eqn:E1;
      [intros H; injection H as <-; apply andb_prop in E1 as [E1 E2];
       apply Z.leb_le in E1; apply Z.leb_le in E2; lia|].
    destruct ((97 <=? byte_val c)%Z && (byte_val c <=? 102)%Z) eqn:E2;
      [intros H; injection H as <-; apply andb_prop in E2 as [E5 E3];
       apply Z.leb_le in E5; apply Z.leb_le in E3; lia|].
    destruct ((65 <=? byte_val c)%Z && (byte_val c <=? 70)%Z) eqn:E3;
      [intros H; injection H as <-; apply andb_prop in E3 as [E6 E4];
       apply Z.leb_le in E6; apply Z.leb_le in E4; lia|].
    discriminate. }
  split; [lia|]. split; [unfold is_ascii_char; apply Z.ltb_lt; lia|].
  split; apply Ascii.eqb_neq; intros ->; discriminate H.
Qed.

Lemma hexdigit_to_digit16 (c : ascii) :
  is_ascii_hexdigit c = true -> exists d, to_digit16 c = Some d.
Proof. unfold is_ascii_hexdigit. destruct (to_digit16 c); [eauto | discriminate]. Qed.

Lemma all_ascii_str_is_ascii (s : string) :
  (forall c, List.In c (list_ascii_of_string s) -> is_ascii_char c = true) -> str_is_ascii s = true.
Proof.
  induction s as [|c s IH]; intros H; [reflexivity|]. simpl.
  rewrite (H c (or_introl eq_refl)), IH; [reflexivity|]. intros x Hx. apply H. now right.
Qed.

Lemma all_hex_ascii (s : string) : all_hex s -> str_is_ascii s = true.
Proof.
  intros H. apply all_ascii_str_is_ascii. intros c Hc.
  unfold all_hex in H. rewrite Forall_forall in H. destruct (hexdigit_to_digit16 c (H c Hc)) as (d & Hd).
  apply (to_digit16_spec c d Hd).
Qed.

Lemma hex_pairs_hex : forall (s : string) (bs : list byte), uuid.hex_pairs s = Some bs -> all_hex s.
Proof.
  fix IH 1. intros [|h [|l r]] bs H; simpl in H.
  - constructor.
  - discriminate.
  - destruct (to_digit16 h) eqn:Eh; [|discriminate].
    destruct (to_digit16 l) eqn:El; [|discriminate].
    destruct (uuid.hex_pairs r) eqn:Er; [|discriminate].
    constructor; [unfold is_ascii_hexdigit; now rewrite Eh|].
    constructor; [unfold is_ascii_hexdigit; now rewrite El|].
    exact (IH r _ Er).
Qed.

Lemma drop_group_hyphens_in (s : string) (i : nat) (c : ascii) :
  uuid.hyphens_in_place i s = true -> List.In c (list_ascii_of_string s) ->
  c = "-"%char \/ List.In c (list_ascii_of_string (uuid.drop_group_hyphens i s)).
Proof.
  revert i. induction s as [|x s IH]; intros i Hh Hc; [destruct Hc|].
  simpl in Hh. apply andb_prop in Hh as [Hx Hh].
  simpl. destruct (uuid.is_group_hyphen i).
  - apply Ascii.eqb_eq in Hx. destruct Hc as [<-|Hc]; [now left|]. exact (IH (S i) Hh Hc).
  - destruct Hc as [<-|Hc]; [right; now left|].
    destruct (IH (S i) Hh Hc) as [H|H]; [now left | right; now right].
Qed.

(** What a successful [Uuid::parse_str] of 36 or 32 characters says about
    the text: it is ASCII, and it has a hyphen at offset 8 exactly when it is
    the hyphenated form. *)
Lemma uuid_text_facts (p : string) (u : uuid.Uuid) :
  uuid.parse_str p = Some u -> (String.length p = 36 \/ String.length p = 32)%nat ->
  str_is_ascii p = true /\ String.eqb (substring 8 1 p) "-" = Nat.eqb (String.length p) 36.
Proof.
  intros Hp Hlen. unfold uuid.parse_str in Hp.
  destruct Hlen as [Hl|Hl]; rewrite Hl in Hp |- *; cbn [Nat.eqb] in Hp |- *.
  - unfold uuid.parse_hyphenated in Hp.
    destruct (uuid.hyphens_in_place 0 p) eqn:Hh; [|discriminate].
    destruct (uuid.hex_pairs (uuid.drop_group_hyphens 0 p)) as [bs|] eqn:Hx; [|discriminate].
    pose proof (hex_pairs_hex _ _ Hx) as Hhex.
    split.
    + apply all_ascii_str_is_ascii. intros c Hc.
      destruct (drop_group_hyphens_in p 0 c Hh Hc) as [->|Hin]; [reflexivity|].
      unfold all_hex in Hhex. rewrite Forall_forall in Hhex. destruct (hexdigit_to_digit16 c (Hhex c Hin)) as (d & Hd).
      apply (to_digit16_spec c d Hd).
    + clear Hp Hx Hhex.
      destruct p as [|c0 [|c1 [|c2 [|c3 [|c4 [|c5 [|c6 [|c7 [|c8 p]]]]]]]]];
        try (simpl in Hl; discriminate Hl).
      cbn in Hh. apply andb_prop in Hh as [H8 _]. apply Ascii.eqb_eq in H8. subst.
      destruct p; reflexivity.
  - destruct (uuid.hex_pairs p) as [bs|] eqn:Hx; [|discriminate].
    pose proof (hex_pairs_hex _ _ Hx) as Hhex.
    split; [exact (all_hex_ascii p Hhex)|].
    clear Hp Hx.
    destruct p as [|c0 [|c1 [|c2 [|c3 [|c4 [|c5 [|c6 [|c7 [|c8 p]]]]]]]]];
      try (simpl in Hl; discriminate Hl).
    assert (Hc8 : is_ascii_hexdigit c8 = true)
      by (unfold all_hex in Hhex; rewrite Forall_forall in Hhex; apply Hhex; simpl; tauto).
    destruct (hexdigit_to_digit16 c8 Hc8) as (d & Hd).
    destruct (to_digit16_spec c8 d Hd) as (_ & _ & _ & Hm).
    cbn [substring String.eqb]. rewrite Hm. reflexivity.
Qed.

Lemma radix16_digits_some (s : string) (acc : Z) :
  all_hex s -> (0 <= acc)%Z ->
  ((acc + 1) * 16 ^ Z.of_nat (String.length s) <= 2 ^ 32)%Z ->
  exists v, u32_radix16_digits acc s = Some v.
Proof.
  revert acc. induction s as [|c s IH]; intros acc Hs Hacc Hb; [exists acc; reflexivity|].
  unfold all_hex in Hs. cbn [list_ascii_of_string] in Hs.
  apply Forall_cons_iff in Hs as [Hc Hs'].
  destruct (hexdigit_to_digit16 c Hc) as (d & Hd). destruct (to_digit16_spec c d Hd) as (Hdr & _).
  cbn [u32_radix16_digits]. rewrite Hd.
  cbn [String.length] in Hb. rewrite Nat2Z.inj_succ, Z.pow_succ_r in Hb by lia.
  assert (HP : (1 <= 16 ^ Z.of_nat (String.length s))%Z).
  { pose proof (Z.pow_pos_nonneg 16 (Z.of_nat (String.length s)) ltac:(lia) ltac:(lia)). lia. }
  remember (16 ^ Z.of_nat (String.length s))%Z as P.
  change (2 ^ 32)%Z with 4294967296%Z in *.
  destruct (Z.ltb_spec (acc * 16) 4294967296); [|nia].
  destruct (Z.ltb_spec (acc * 16 + d) 4294967296); [|nia].
  apply IH; [exact Hs' | lia |]. subst P. nia.
Qed.

(** A nonempty string of at most 8 hex digits is a [u32] in base 16. *)
Lemma hex_str_u32 (s : string) :
  all_hex s -> (1 <= String.length s <= 8)%nat -> exists a, u32_from_str_radix16 s = Some a.
Proof.
  intros Hs Hl. destruct s as [|c r]; [simpl in Hl; lia|].
  pose proof Hs as Hs0. unfold all_hex in Hs. cbn [list_ascii_of_string] in Hs.
  apply Forall_cons_iff in Hs as [Hc _].
  destruct (hexdigit_to_digit16 c Hc) as (d & Hd). destruct (to_digit16_spec c d Hd) as (_ & _ & Hp & Hm).
  unfold u32_from_str_radix16. rewrite Hp, Hm. cbn [orb andb].
  apply radix16_digits_some; [exact Hs0 | lia |].
  assert (H : (16 ^ Z.of_nat (String.length (String c r)) <= 16 ^ 8)%Z)
    by (apply Z.pow_le_mono_r; lia).
  change (2 ^ 32)%Z with (16 ^ 8)%Z. lia.
Qed.

Lemma list_ascii_of_string_length (s : string) :
  List.length (list_ascii_of_string s) = String.length s.
Proof. induction s; simpl; auto. Qed.

Lemma list_ascii_of_substring_0 (n : nat) (s : string) :
  list_ascii_of_string (substring 0 n s) = firstn n (list_ascii_of_string s).
Proof.
  revert n. induction s as [|c s IH]; intros [|n]; simpl; try reflexivity.
  now rewrite IH.
Qed.

Lemma substring_0_length (n : nat) (s : string) :
  (n <= String.length s)%nat -> String.length (substring 0 n s) = n.
Proof.
  intros H. rewrite <- list_ascii_of_string_length, list_ascii_of_substring_0, length_firstn,
    list_ascii_of_string_length. lia.
Qed.

Lemma all_hex_prefix (n : nat) (s : string) : all_hex s -> all_hex (substring 0 n s).
Proof.
  unfold all_hex. rewrite list_ascii_of_substring_0. intros H.
  rewrite Forall_forall in *. intros x Hx. apply H.
  rewrite <- (firstn_skipn n (list_ascii_of_string s)). apply in_or_app. now left.
Qed.

(** The general parser on a UUID text, the separator its form requires, and
    an ASCII appendix substring longer than 8 characters: only the first 8
    characters of the appendix are parsed. *)
Lemma from_str_long_tail (p r : string) (u : uuid.Uuid) :
  uuid.parse_str p = Some u -> (String.length p = 36 \/ String.length p = 32)%nat ->
  str_is_ascii r = true -> (8 < String.length r)%nat ->
  from_str (p ++ (if Nat.eqb (String.length p) 36 then "-" else "") ++ r) =
    match u32_from_str_radix16 (substring 0 8 r) with
    | Some a => Ok (from_parts u a)
    | None => Err ParseDebugIdError_
    end.
Proof.
  intros Hp Hlen Hr Hrl.
  destruct (uuid_text_facts p u Hp Hlen) as [Hpa H8].
  assert (Hl : String.length p = (if Nat.eqb (String.length p) 36 then 36 else 32)%nat)
    by (destruct Hlen as [E|E]; rewrite E; reflexivity).
  rewrite from_str_parse_str.
  destruct r as [|c r]; [simpl in Hrl; lia|].
  destruct (Nat.eqb (String.length p) 36) eqn:Eh.
  - rewrite (parse_str_uuid_form _ p ("-" ++ String c r) general_options u true);
      [| reflexivity | rewrite str_is_ascii_append, Hpa; exact Hr | exact Hp | exact Hl
       | exact H8 | reflexivity].
    change ("-" ++ String c r) with (String "-" (String c r)).
    cbn [String.eqb andb negb require_appendix general_options starts_with_hyphen xorb].
    rewrite str_slice_from_cons. cbv zeta.
    replace (Nat.ltb 8 (String.length (String c r))) with true by (symmetry; apply Nat.ltb_lt; exact Hrl).
    cbn [allow_tail general_options andb]. unfold str_slice_to.
    destruct (u32_from_str_radix16 _); reflexivity.
  - rewrite (parse_str_uuid_form _ p ("" ++ String c r) general_options u false);
      [| reflexivity | rewrite str_is_ascii_append, Hpa; exact Hr | exact Hp | exact Hl
       | exact H8 | discriminate].
    change ("" ++ String c r) with (String c r).
    cbn [String.eqb andb negb require_appendix general_options starts_with_hyphen xorb].
    destruct (Ascii.eqb c "-") eqn:Ec.
    + apply Ascii.eqb_eq in Ec. subst c. cbn [substring].
      unfold u32_from_str_radix16. cbn [Ascii.eqb orb andb Bool.eqb].
      destruct (String.eqb (substring 0 7 r) ""); reflexivity.
    + cbv zeta.
      replace (Nat.ltb 8 (String.length (String c r))) with true by (symmetry; apply Nat.ltb_lt; exact Hrl).
      cbn [allow_tail general_options andb]. unfold str_slice_to.
      destruct (u32_from_str_radix16 _); reflexivity.
Qed.

Lemma id_to_string_no_hyphen_suffix (i : Identifier) (p : string) :
  id_to_string i <> p ++ "-" ++ "0".
Proof.
  intros E. destruct i as [t|u]; cbn [id_to_string] in E.
  - apply (f_equal list_ascii_of_string) in E.
    rewrite !list_ascii_of_string_append in E. cbn [list_ascii_of_string] in E.
    apply (fmt_08X_no_hyphen t). rewrite E. apply in_or_app. right. now left.
  - destruct (to_hyphenated_tail u) as (q & Hq & Hlen). rewrite Hq in E.
    pose proof (fmt_bytes_no_hyphen _ hex_digit_lower_ok _ fmt_02x_shape
               [uuid.u10 u; uuid.u11 u; uuid.u12 u; uuid.u13 u; uuid.u14 u; uuid.u15 u]) as Hnh.
    revert Hlen Hnh E.
    generalize (uuid.fmt_bytes uuid.fmt_02x [uuid.u10 u; uuid.u11 u; uuid.u12 u; uuid.u13 u; uuid.u14 u; uuid.u15 u]) as tl.
    intros tl Hlen Hnh E.
    assert (Hl : List.length (list_ascii_of_string tl) = 12%nat).
    { rewrite <- Hlen. clear. induction tl; simpl; auto. }
    apply (f_equal list_ascii_of_string) in E.
    rewrite !list_ascii_of_string_append in E. cbn [list_ascii_of_string] in E.
    apply app_eq_app in E as (l & [[_ E]|[_ E]]).
    + apply (f_equal (@List.length ascii)) in E. rewrite !length_app, Hl in E.
      cbn [List.length] in E. lia.
    + apply Hnh. rewrite E. apply in_or_app. right. now left.
Qed.

(** ** Claims *)

(** C1 (the default form of a PDB 2.0 identifier with appendix 0 does not
    parse back): [to_string] omits a zero appendix also for the PDB 2.0
    variant, which leaves the 8 timestamp digits alone; eight characters are
    outside the PDB 2.0 window of [parse_str] and too short for a UUID, so the
    general parser rejects them.  The other round trips of the claim hold:
    [roundtrip_uuid_default], [roundtrip_uuid_breakpad],
    [roundtrip_pdb20_breakpad] and [roundtrip_pdb20_default_nonzero]. *)
Theorem C1_pdb20_zero_appendix_no_roundtrip (t : Z) :
  to_string (from_timestamp_age t 0) = fmt_08X t /\
  from_str (to_string (from_timestamp_age t 0)) = Err ParseDebugIdError_.
Proof.
  assert (E : to_string (from_timestamp_age t 0) = fmt_08X t).
  { unfold to_string. cbn [id appendix from_timestamp_age]. simpl Z.ltb. cbv iota. apply append_empty_r. }
  split; [exact E|]. rewrite E, from_str_parse_str.
  pose proof (fmt_08X_length t) as H8.
  unfold parse_str. cbv zeta.
  assert (Hh : hyphen_at_8 (fmt_08X t) = false).
  { unfold hyphen_at_8. rewrite str_get_too_long by lia. reflexivity. }
  rewrite Hh, fmt_08X_ascii. cbn [andb orb negb general_options allow_hyphens].
  replace (pdb20_window false (String.length (fmt_08X t))) with false by (rewrite H8; reflexivity).
  unfold str_get_to. rewrite str_get_too_long by lia. reflexivity.
Qed.

Example C1_failing_input : to_string (from_timestamp_age 305419896 0) = "12345678".
Proof. vm_compute. reflexivity. Qed.

(** C2, counterexample: "12345678-1" lies in the hyphenated PDB 2.0 window
    and both halves are hex, yet [from_breakpad] rejects it: a hyphen at
    offset 8 is refused before the window is looked at. *)
Lemma C2_breakpad_hyphenated_pdb20 :
  str_is_ascii "12345678-1" = true /\ hyphen_at_8 "12345678-1" = true /\
  String.length "12345678-1" = 10%nat /\
  u32_from_str_radix16 "12345678" = Some 305419896%Z /\ u32_from_str_radix16 "1" = Some 1%Z /\
  from_str "12345678-1" = Ok (from_timestamp_age 305419896 1) /\
  from_breakpad "12345678-1" = Err ParseDebugIdError_.
Proof. vm_compute. repeat split. Qed.

(** C2 (amended): for an ASCII string in the PDB 2.0 window ([10,17]
    characters with a hyphen at offset 8, [9,16] without), a mode that allows
    hyphens, or any mode on an unhyphenated input, reads the first 8
    characters and the rest after the optional hyphen as hex [u32]s and
    returns the PDB 2.0 variant, failing if either conversion fails; a mode
    that forbids hyphens rejects a hyphenated input; the result is never a
    UUID. *)
Theorem C2_pdb20_window_parse (s : string) (o : ParseOptions) :
  str_is_ascii s = true ->
  (hyphen_at_8 s = true /\ (10 <= String.length s <= 17)%nat \/
   hyphen_at_8 s = false /\ (9 <= String.length s <= 16)%nat) ->
  parse_str s o =
    (if hyphen_at_8 s && negb (allow_hyphens o) then None
     else
       let k := if hyphen_at_8 s then 9%nat else 8%nat in
       match u32_from_str_radix16 (substring 0 8 s) with
       | None => None
       | Some timestamp =>
           match u32_from_str_radix16 (substring k (String.length s - k) s) with
           | None => None
           | Some a => Some (from_timestamp_age timestamp a)
           end
       end) /\
  (forall d, parse_str s o = Some d -> is_pdb20 d = true).
Proof.
  intros Ha Hw.
  assert (Hw' : pdb20_window (hyphen_at_8 s) (String.length s) = true).
  { unfold pdb20_window.
    destruct Hw as [[-> H]|[-> H]]; cbn [andb orb negb]; rewrite ?orb_false_r;
      apply andb_true_intro; split; apply Nat.leb_le; lia. }
  split; [|intros d; apply parse_str_pdb20_is_pdb20; exact Hw'].
  destruct (hyphen_at_8 s && negb (allow_hyphens o)) eqn:Hr.
  - apply andb_prop in Hr as [Hh Hn]. apply negb_true_iff in Hn.
    now apply parse_str_hyphen_rejected.
  - apply parse_str_pdb20; [exact Ha | | exact Hw'].
    intros Hh. rewrite Hh in Hr. simpl in Hr. now apply negb_false_iff.
Qed.

Lemma C2_pdb20_window_parse_witness :
  parse_str "12345678-1" general_options = Some (from_timestamp_age 305419896 1) /\
  (forall d, parse_str "12345678-1" general_options = Some d -> is_pdb20 d = true).
Proof.
  assert (Hw : hyphen_at_8 "12345678-1" = true /\ (10 <= String.length "12345678-1" <= 17)%nat)
    by (split; [reflexivity | simpl; lia]).
  destruct (C2_pdb20_window_parse "12345678-1" general_options eq_refl (or_introl Hw)) as [E H].
  split; [rewrite E; vm_compute; reflexivity | exact H].
Defined.

(** C5: the default form is the identifier's text followed by "-" and the
    minimal lowercase hex appendix exactly when the appendix is nonzero, and
    by nothing otherwise; the Breakpad form always ends in the lowercase hex
    appendix, which is "0" for a zero appendix. *)
Theorem C5_appendix_suppression (d : DebugId) :
  (0 <= appendix d < 2 ^ 32)%Z ->
  to_string d = id_to_string (id d) ++
                (if (appendix d =? 0)%Z then "" else "-" ++ fmt_x (appendix d)) /\
  ((exists p, to_string d = p ++ "-" ++ fmt_x (appendix d)) <-> appendix d <> 0%Z) /\
  breakpad d = (match id d with
                | Pdb20 timestamp => fmt_08X timestamp
                | Uuid u => uuid.to_simple_upper u
                end) ++ fmt_x (appendix d) /\
  fmt_x 0 = "0".
Proof.
  intros Ha.
  assert (E : to_string d = id_to_string (id d) ++
                (if (appendix d =? 0)%Z then "" else "-" ++ fmt_x (appendix d))).
  { unfold to_string. f_equal; [try (now destruct (id d))..].
    destruct (Z.eqb_spec (appendix d) 0) as [H|H].
    - rewrite H. reflexivity.
    - replace (0 <? appendix d)%Z with true by (symmetry; apply Z.ltb_lt; lia). reflexivity. }
  split; [exact E|]. split; [|split; [unfold breakpad; now destruct (id d) | reflexivity]].
  split.
  - intros (p & Hp) H0. rewrite E, H0 in Hp. cbn [Z.eqb] in Hp. rewrite append_empty_r in Hp.
    exact (id_to_string_no_hyphen_suffix (id d) p Hp).
  - intros H0. exists (id_to_string (id d)). rewrite E.
    now replace (appendix d =? 0)%Z with false by (symmetry; apply Z.eqb_neq; exact H0).
Qed.

Lemma C5_appendix_suppression_witness :
  to_string (from_parts uuid_dfb8 10) = "dfb8e43a-f242-3d73-a453-aeb6a777ef75-a" /\
  ((exists p, to_string (from_parts uuid_dfb8 10) = p ++ "-" ++ fmt_x 10) <-> 10%Z <> 0%Z).
Proof.
  destruct (C5_appendix_suppression (from_parts uuid_dfb8 10) ltac:(simpl; lia)) as (_ & H & _).
  split; [vm_compute; reflexivity | exact H].
Defined.

(** C6: [from_guid_age] fails exactly when the slice is not 16 bytes long;
    otherwise it returns the UUID variant whose bytes are the GUID with its
    first 4 bytes reversed, the next two swapped, the two after swapped, and
    the last 8 unchanged, with the age as appendix. *)
Theorem C6_from_guid_age (guid : list byte) (age : Z) :
  (from_guid_age guid age = Err ParseDebugIdError_ <-> List.length guid <> 16%nat) /\
  (List.length guid = 16%nat ->
   exists u, from_guid_age guid age = Ok (from_parts u age) /\
     uuid.as_bytes u = (rev (firstn 4 guid) ++ rev (firstn 2 (skipn 4 guid)) ++
                        rev (firstn 2 (skipn 6 guid)) ++ skipn 8 guid)%list).
Proof.
  unfold from_guid_age.
  destruct (Nat.eqb_spec (List.length guid) 16) as [H|H]; cbn [negb].
  - split; [split; [discriminate | contradiction]|]. intros _.
    do 16 (destruct guid as [|? guid]; [discriminate|]).
    destruct guid; [|discriminate]. eexists. split; reflexivity.
  - split; [tauto | contradiction].
Qed.

Lemma C6_from_guid_age_witness :
  from_guid_age [x01; x02; x03] 7 = Err ParseDebugIdError_ /\
  (exists u, from_guid_age (uuid.as_bytes uuid_dfb8) 7 = Ok (from_parts u 7) /\
     uuid.as_bytes u = [x3a; xe4; xb8; xdf; x42; xf2; x73; x3d; xa4; x53; xae; xb6; xa7; x77; xef; x75]).
Proof.
  split.
  - apply (proj1 (C6_from_guid_age [x01; x02; x03] 7)). simpl. discriminate.
  - exact (proj2 (C6_from_guid_age (uuid.as_bytes uuid_dfb8) 7) eq_refl).
Defined.

(** C8: [CodeId::from_binary] stores the two-digit lowercase hex rendering of
    every byte, in order; the empty slice gives a nil [CodeId], and [is_nil]
    holds exactly for the empty stored string. *)
Theorem C8_from_binary (slice : list byte) :
  CodeId_from_binary slice = mkCodeId (uuid.fmt_bytes uuid.fmt_02x slice) /\
  CodeId_is_nil (CodeId_from_binary []) = true /\
  (forall c, CodeId_is_nil c = true <-> inner c = "").
Proof.
  split; [|split; [reflexivity|]].
  - rewrite <- CodeId_from_binary_inner. reflexivity.
  - intros c. unfold CodeId_is_nil. apply String.eqb_eq.
Qed.

(** C9: [CodeId::new] (and [From<String>], [From<&str>], [FromStr], which
    never fails) keeps exactly the ASCII hex digits of its input, in order,
    lowercased; so every stored text, also that of [from_binary] and [nil],
    consists of lowercase hex digits only. *)
Theorem C9_CodeId_normalization (s : string) (slice : list byte) :
  inner (CodeId_new s) =
    string_of_list_ascii (map to_ascii_lowercase (filter is_ascii_hexdigit (list_ascii_of_string s))) /\
  Forall (fun c => is_lower_hexdigit c = true) (list_ascii_of_string (inner (CodeId_new s))) /\
  Forall (fun c => is_lower_hexdigit c = true) (list_ascii_of_string (inner (CodeId_from_binary slice))) /\
  Forall (fun c => is_lower_hexdigit c = true) (list_ascii_of_string (inner CodeId_nil)) /\
  CodeId_from s = CodeId_new s /\ CodeId_from_str s = Ok (CodeId_new s).
Proof.
  split; [|split; [apply CodeId_new_lower|split; [apply CodeId_new_lower|split; [constructor|split; reflexivity]]]].
  unfold CodeId_new. cbn [inner]. induction s as [|c s IH]; [reflexivity|].
  simpl. destruct (is_ascii_hexdigit c); simpl; now rewrite IH.
Qed.

(** C10: [is_nil] holds for [DebugId::nil()] and for the PDB 2.0 identifier
    [from_timestamp_age(0, 0)], which differ under structural equality. *)
Theorem C10_is_nil_pdb20 :
  is_nil nil = true /\ is_nil (from_timestamp_age 0 0) = true /\
  from_timestamp_age 0 0 <> nil /\
  ~ (forall x, is_nil x = true -> x = nil).
Proof.
  split; [reflexivity|]. split; [reflexivity|].
  assert (Hne : from_timestamp_age 0 0 <> nil) by discriminate.
  split; [exact Hne|]. intros H. exact (Hne (H (from_timestamp_age 0 0) eq_refl)).
Qed.

(** C7: a UUID text (36 characters hyphenated or 32 compact) with nothing
    after it parses with the general parser as that UUID with appendix 0,
    and [from_breakpad], which needs the appendix segment, rejects it. *)
Theorem C7_uuid_without_appendix (p : string) (u : uuid.Uuid) :
  uuid.parse_str p = Some u -> (String.length p = 36 \/ String.length p = 32)%nat ->
  from_str p = Ok (from_parts u 0) /\ from_breakpad p = Err ParseDebugIdError_.
Proof.
  intros Hp Hlen. destruct (uuid_text_facts p u Hp Hlen) as [Hpa H8].
  assert (Hl : String.length p = (if Nat.eqb (String.length p) 36 then 36 else 32)%nat)
    by (destruct Hlen as [E|E]; rewrite E; reflexivity).
  split.
  - rewrite from_str_parse_str,
      (parse_str_uuid_form p p "" general_options u (Nat.eqb (String.length p) 36));
      [reflexivity | symmetry; apply append_empty_r | exact Hpa | exact Hp | exact Hl
       | exact H8 | reflexivity].
  - rewrite from_breakpad_parse_str. destruct (Nat.eqb (String.length p) 36) eqn:Eh.
    + rewrite parse_str_hyphen_rejected; [reflexivity | | reflexivity].
      rewrite hyphen_at_8_ascii by (auto; lia). exact H8.
    + rewrite (parse_str_uuid_form p p "" breakpad_options u false);
        [reflexivity | symmetry; apply append_empty_r | exact Hpa | exact Hp | exact Hl
         | exact H8 | discriminate].
Qed.

Lemma C7_uuid_without_appendix_witness :
  from_str (uuid.to_hyphenated uuid_dfb8) = Ok (from_parts uuid_dfb8 0) /\
  from_breakpad (uuid.to_hyphenated uuid_dfb8) = Err ParseDebugIdError_.
Proof.
  exact (C7_uuid_without_appendix (uuid.to_hyphenated uuid_dfb8) uuid_dfb8
           ltac:(vm_compute; reflexivity) (or_introl eq_refl)).
Defined.

(** C3 (counterexample): the general parser accepts the hyphenated UUID
    followed by "-feedface1"; it parses the first 8 appendix digits and
    ignores the ninth.  Only [from_breakpad] rejects the string. *)
Lemma C3_feedface1_accepted :
  from_str "dfb8e43a-f242-3d73-a453-aeb6a777ef75-feedface1" = Ok (from_parts uuid_dfb8 4277009102) /\
  from_breakpad "dfb8e43a-f242-3d73-a453-aeb6a777ef75-feedface1" = Err ParseDebugIdError_.
Proof. split; vm_compute; reflexivity. Qed.

(** C3 (amended): for a valid 36-character hyphenated UUID text, a hyphen
    and 9 hex digits, the general parser succeeds with the UUID and the
    value of the first 8 appendix digits, while [from_breakpad] rejects the
    input. *)
Theorem C3_general_parser_truncates (p d : string) (u : uuid.Uuid) :
  uuid.parse_str p = Some u -> String.length p = 36%nat ->
  String.length d = 9%nat -> all_hex d ->
  exists a, u32_from_str_radix16 (substring 0 8 d) = Some a /\
    from_str (p ++ "-" ++ d) = Ok (from_parts u a) /\
    from_breakpad (p ++ "-" ++ d) = Err ParseDebugIdError_.
Proof.
  intros Hp Hl Hd Hx.
  assert (H8l : (1 <= String.length (substring 0 8 d) <= 8)%nat)
    by (rewrite substring_0_length by lia; lia).
  destruct (hex_str_u32 (substring 0 8 d) (all_hex_prefix 8 d Hx) H8l) as (a & Ha).
  exists a. split; [exact Ha|].
  destruct (uuid_text_facts p u Hp (or_introl Hl)) as [Hpa H8].
  split.
  - pose proof (from_str_long_tail p d u Hp (or_introl Hl) (all_hex_ascii d Hx) ltac:(lia)) as E.
    rewrite Hl in E. cbn [Nat.eqb] in E. rewrite Ha in E. exact E.
  - rewrite from_breakpad_parse_str.
    rewrite parse_str_hyphen_rejected; [reflexivity | | reflexivity].
    rewrite hyphen_at_8_ascii.
    + rewrite substring_append_l by lia. rewrite H8, Hl. reflexivity.
    + rewrite str_is_ascii_append, Hpa. exact (all_hex_ascii d Hx).
    + rewrite length_append. lia.
Qed.

Lemma C3_general_parser_truncates_witness :
  exists a, u32_from_str_radix16 (substring 0 8 "feedface1") = Some a /\
    from_str (uuid.to_hyphenated uuid_dfb8 ++ "-" ++ "feedface1") = Ok (from_parts uuid_dfb8 a) /\
    from_breakpad (uuid.to_hyphenated uuid_dfb8 ++ "-" ++ "feedface1") = Err ParseDebugIdError_.
Proof.
  apply (C3_general_parser_truncates (uuid.to_hyphenated uuid_dfb8) "feedface1" uuid_dfb8).
  - vm_compute. reflexivity.
  - reflexivity.
  - reflexivity.
  - repeat constructor.
Defined.

(** C4 (counterexample): after a valid UUID prefix and separator, the
    appendix substring "feedface" followed by the two bytes of U+00E9 is
    longer than 8 characters and starts with 8 valid hex digits, yet the
    general parser fails: [parse_str] rejects every non-ASCII input before
    it looks at the appendix. *)
Lemma C4_non_ascii_tail_rejected :
  let s := uuid.to_hyphenated uuid_dfb8 ++ "-" ++ "feedface" ++
           String (ascii_of_nat 195) (String (ascii_of_nat 169) EmptyString) in
  uuid.parse_str (substring 0 36 s) = Some uuid_dfb8 /\ substring 36 1 s = "-" /\
  String.length (str_slice_from s 37) = 10%nat /\
  u32_from_str_radix16 (substring 37 8 s) = Some 4277009102%Z /\
  from_str s = Err ParseDebugIdError_.
Proof.
  cbv zeta. refine (conj _ (conj _ (conj _ (conj _ _)))); vm_compute; reflexivity.
Qed.

(** C4 (amended): for every ASCII input made of a UUID text, the separator
    its form requires ("-" after the hyphenated form, nothing after the
    compact one) and an appendix substring longer than 8 characters, the
    general parser parses only the first 8 characters of the appendix, and
    succeeds whenever they are hex digits.  An input with a non-ASCII byte
    anywhere, also in the ignored remainder, is rejected. *)
Theorem C4_tail_truncation (p r : string) (u : uuid.Uuid) :
  uuid.parse_str p = Some u -> (String.length p = 36 \/ String.length p = 32)%nat ->
  str_is_ascii r = true -> (8 < String.length r)%nat ->
  from_str (p ++ (if Nat.eqb (String.length p) 36 then "-" else "") ++ r) =
    match u32_from_str_radix16 (substring 0 8 r) with
    | Some a => Ok (from_parts u a)
    | None => Err ParseDebugIdError_
    end /\
  (all_hex (substring 0 8 r) ->
   exists a, from_str (p ++ (if Nat.eqb (String.length p) 36 then "-" else "") ++ r) = Ok (from_parts u a)) /\
  (forall s, str_is_ascii s = false -> from_str s = Err ParseDebugIdError_).
Proof.
  intros Hp Hlen Hr Hrl. pose proof (from_str_long_tail p r u Hp Hlen Hr Hrl) as E.
  split; [exact E|]. split.
  2:{ intros s Hs. rewrite from_str_parse_str. unfold parse_str. cbv zeta.
      rewrite Hs. cbn [negb]. rewrite orb_true_r. reflexivity. }
  intros Hx.
  assert (H8l : (1 <= String.length (substring 0 8 r) <= 8)%nat)
    by (rewrite substring_0_length by lia; lia).
  destruct (hex_str_u32 (substring 0 8 r) Hx H8l) as (a & Ha).
  exists a. rewrite E, Ha. reflexivity.
Qed.

Lemma C4_tail_truncation_witness :
  from_str (uuid.to_hyphenated uuid_dfb8 ++ "-" ++ "feedface1") = Ok (from_parts uuid_dfb8 4277009102) /\
  from_str (uuid.to_hyphenated uuid_dfb8 ++ "-" ++ "feedface" ++
            String (ascii_of_nat 195) (String (ascii_of_nat 169) EmptyString)) = Err ParseDebugIdError_.
Proof.
  assert (Hl : (8 < String.length "feedface1")%nat) by (simpl; lia).
  destruct (C4_tail_truncation (uuid.to_hyphenated uuid_dfb8) "feedface1" uuid_dfb8
              ltac:(vm_compute; reflexivity) (or_introl eq_refl) eq_refl Hl) as (E & _ & N).
  split.
  - refine (eq_trans E _). vm_compute. reflexivity.
  - apply N. vm_compute. reflexivity.
Defined.

(** ** Further properties of the code *)

Lemma u32_radix16_digits_range (s : string) (acc v : Z) :
  (0 <= acc < 2 ^ 32)%Z -> u32_radix16_digits acc s = Some v -> (0 <= v < 2 ^ 32)%Z.
Proof.
  revert acc. induction s as [|c s IH]; intros acc Hacc H; cbn [u32_radix16_digits] in H.
  - injection H as <-. exact Hacc.
  - destruct (to_digit16 c) as [d|] eqn:Hd; [|discriminate].
    destruct (to_digit16_spec c d Hd) as (Hdr & _).
    destruct (Z.ltb_spec (acc * 16) (2 ^ 32)); [|discriminate].
    destruct (Z.ltb_spec (acc * 16 + d) (2 ^ 32)); [|discriminate].
    apply (IH (acc * 16 + d)%Z); [lia | exact H].
Qed.

Lemma u32_from_str_radix16_range (s : string) (v : Z) :
  u32_from_str_radix16 s = Some v -> (0 <= v < 2 ^ 32)%Z.
Proof.
  unfold u32_from_str_radix16. destruct s as [|c r]; [discriminate|].
  destruct (_ && _); [discriminate|].
  destruct (Ascii.eqb c "+"); intros H; [apply (u32_radix16_digits_range r 0 v) | apply (u32_radix16_digits_range (String c r) 0 v)]; auto; lia.
Qed.

Lemma str_get_some_length (s : string) (a b : nat) (x : string) :
  str_get s a b = Some x -> (b <= String.length s)%nat.
Proof.
  unfold str_get. destruct (Nat.leb b (String.length s)) eqn:E.
  - intros _. now apply Nat.leb_le.
  - rewrite andb_false_r. cbn. discriminate.
Qed.

(** What [parse_str] returns, in any mode: the input is ASCII, and the
    result is either a PDB 2.0 identifier from an input of 9 to 17 bytes or a
    UUID identifier from an input of at least 32 bytes, with [u32] fields in
    range and zero padding. *)
Lemma parse_str_result (s : string) (o : ParseOptions) (d : DebugId) :
  parse_str s o = Some d ->
  str_is_ascii s = true /\
  ((exists t a, d = from_timestamp_age t a /\ (0 <= t < 2 ^ 32)%Z /\ (0 <= a < 2 ^ 32)%Z /\
      (9 <= String.length s <= 17)%nat) \/
   (exists u a, d = from_parts u a /\ (0 <= a < 2 ^ 32)%Z /\ (32 <= String.length s)%nat)).
Proof.
  unfold parse_str. cbv zeta.
  destruct (hyphen_at_8 s && negb (allow_hyphens o) || negb (str_is_ascii s)) eqn:G; [discriminate|].
  apply orb_false_iff in G as [_ G]. apply negb_false_iff in G. rewrite G.
  intros H. split; [reflexivity|].
  destruct (pdb20_window (hyphen_at_8 s) (String.length s)) eqn:W.
  - left.
    destruct (str_get_to s 8); [|discriminate].
    destruct (u32_from_str_radix16 s0) as [t|] eqn:Ht; [|discriminate].
    destruct (if hyphen_at_8 s then _ else _); [|discriminate].
    destruct (u32_from_str_radix16 s1) as [a|] eqn:Ha; [|discriminate].
    injection H as <-. exists t, a.
    split; [reflexivity|]. split; [exact (u32_from_str_radix16_range _ _ Ht)|].
    split; [exact (u32_from_str_radix16_range _ _ Ha)|].
    unfold pdb20_window in W. destruct (hyphen_at_8 s); cbn [andb orb negb] in W;
      rewrite ?orb_false_r in W; apply andb_prop in W as [W1 W2]; try (apply andb_prop in W1 as [_ W1]);
      apply Nat.leb_le in W1; apply Nat.leb_le in W2; lia.
  - right.
    destruct (str_get_to s (if hyphen_at_8 s then 36%nat else 32%nat)) eqn:Eg; [|discriminate].
    apply str_get_some_length in Eg.
    destruct (uuid.parse_str s0) as [u|]; [|discriminate].
    assert (Hl : (32 <= String.length s)%nat) by (destruct (hyphen_at_8 s); lia).
    destruct (_ && _).
    + injection H as <-. exists u, 0%Z. split; [reflexivity|]. split; [lia | exact Hl].
    + destruct (xorb _ _); [discriminate|].
      destruct (u32_from_str_radix16 _) as [a|] eqn:Ha; [|discriminate].
      injection H as <-. exists u, a. split; [reflexivity|].
      split; [exact (u32_from_str_radix16_range _ _ Ha) | exact Hl].
Qed.

Lemma parsed_ok (s : string) (d : DebugId) :
  (from_str s = Ok d \/ from_breakpad s = Ok d) ->
  exists o, parse_str s o = Some d.
Proof.
  rewrite from_str_parse_str, from_breakpad_parse_str.
  intros [H|H]; [exists general_options | exists breakpad_options];
    destruct (parse_str s _); congruence.
Qed.

Lemma wf_debugid_cases (d : DebugId) :
  wf_debugid d ->
  (exists u a, d = from_parts u a /\ (0 <= a < 2 ^ 32)%Z) \/
  (exists t a, d = from_timestamp_age t a /\ (0 <= t < 2 ^ 32)%Z /\ (0 <= a < 2 ^ 32)%Z).
Proof.
  destruct d as [[t|u] a p]; unfold wf_debugid; cbn [id appendix padding];
    intros (-> & Ha & Ht).
  - right. exists t, a. split; [reflexivity | split; assumption].
  - left. exists u, a. split; [reflexivity | assumption].
Qed.

Lemma parse_pdb20_compact (o : ParseOptions) (t a : Z) :
  (0 <= t < 2 ^ 32)%Z -> (0 <= a < 2 ^ 32)%Z ->
  parse_str (fmt_08X t ++ fmt_x a) o = Some (from_timestamp_age t a).
Proof.
  intros Ht Ha.
  set (s := fmt_08X t ++ fmt_x a).
  assert (Hasc : str_is_ascii s = true) by (unfold s; now rewrite str_is_ascii_append, fmt_08X_ascii, fmt_x_ascii).
  pose proof (fmt_x_length a) as Hxl. pose proof (fmt_08X_length t) as H8.
  assert (Hlen : String.length s = (8 + String.length (fmt_x a))%nat) by (unfold s; now rewrite length_append, H8).
  assert (Hh : hyphen_at_8 s = false).
  { rewrite hyphen_at_8_ascii by (auto; lia). unfold s.
    rewrite <- H8, <- (Nat.add_0_r (String.length (fmt_08X t))), substring_append_r.
    destruct (fmt_x_head a) as (c & r & -> & Hc). simpl. now rewrite Hc. }
  rewrite parse_str_pdb20; [| exact Hasc | rewrite Hh; discriminate |].
  2:{ rewrite Hh, Hlen. unfold pdb20_window. cbn [andb orb negb].
      apply andb_true_intro; split; apply Nat.leb_le; lia. }
  rewrite Hh. cbv zeta. unfold s.
  rewrite substring_0_append by (symmetry; exact H8). rewrite fmt_08X_from_str by exact Ht.
  rewrite length_append, H8, <- H8, <- (Nat.add_0_r (String.length (fmt_08X t))) at 1.
  rewrite substring_append_r.
  match goal with
  | |- context [substring 0 ?k (fmt_x a)] => replace k with (String.length (fmt_x a)) by lia
  end.
  rewrite substring_0_full, fmt_x_from_str by exact Ha. reflexivity.
Qed.

Lemma parse_uuid_compact (o : ParseOptions) (u : uuid.Uuid) (a : Z) :
  (0 <= a < 2 ^ 32)%Z ->
  parse_str (uuid.to_simple_upper u ++ fmt_x a) o = Some (from_parts u a).
Proof.
  intros Ha.
  rewrite (parse_str_uuid_form _ (uuid.to_simple_upper u) (fmt_x a) _ u false);
    [| reflexivity
     | rewrite str_is_ascii_append, to_simple_upper_ascii, fmt_x_ascii; reflexivity
     | apply parse_to_simple_upper | apply to_simple_upper_length
     | apply to_simple_upper_at_8 | discriminate].
  pose proof (fmt_x_length a) as Hxl.
  replace (String.eqb (fmt_x a) "") with false
    by (destruct (fmt_x_head a) as (c & r & -> & _); reflexivity).
  rewrite andb_false_r.
  destruct (fmt_x_head a) as (c & r & Hcr & Hc).
  replace (xorb false (starts_with_hyphen (fmt_x a))) with false
    by (rewrite Hcr; cbn [starts_with_hyphen]; now rewrite Hc).
  cbv zeta.
  replace (Nat.ltb 8 (String.length (fmt_x a))) with false by (symmetry; apply Nat.ltb_ge; lia).
  rewrite (andb_false_r (allow_tail o)). cbv beta iota.
  rewrite fmt_x_from_str by exact Ha. reflexivity.
Qed.

Lemma from_str_fmt_08X_rejected (t : Z) : from_str (fmt_08X t) = Err ParseDebugIdError_.
Proof.
  rewrite from_str_parse_str.
  pose proof (fmt_08X_length t) as H8.
  unfold parse_str. cbv zeta.
  assert (Hh : hyphen_at_8 (fmt_08X t) = false).
  { unfold hyphen_at_8. rewrite str_get_too_long by lia. reflexivity. }
  rewrite Hh, fmt_08X_ascii. cbn [andb orb negb general_options allow_hyphens].
  replace (pdb20_window false (String.length (fmt_08X t))) with false by (rewrite H8; reflexivity).
  unfold str_get_to. rewrite str_get_too_long by lia. reflexivity.
Qed.

(** Both parsers read the Breakpad form of every identifier back, so the
    Breakpad form tells identifiers apart. *)
Theorem breakpad_roundtrip_both_parsers (d : DebugId) :
  wf_debugid d ->
  from_breakpad (breakpad d) = Ok d /\ from_str (breakpad d) = Ok d /\
  (forall d', wf_debugid d' -> breakpad d' = breakpad d -> d' = d).
Proof.
  assert (Hrt : forall d, wf_debugid d ->
            parse_str (breakpad d) breakpad_options = Some d /\
            parse_str (breakpad d) general_options = Some d).
  { intros x Hx. destruct (wf_debugid_cases x Hx) as [(u & a & -> & Ha)|(t & a & -> & Ht & Ha)];
      unfold breakpad; cbn [id appendix from_parts from_timestamp_age].
    - split; apply parse_uuid_compact; exact Ha.
    - split; apply parse_pdb20_compact; assumption. }
  intros Hd. destruct (Hrt d Hd) as [Hb Hg].
  rewrite from_breakpad_parse_str, from_str_parse_str, Hb, Hg.
  split; [reflexivity|]. split; [reflexivity|].
  intros d' Hd' E. destruct (Hrt d' Hd') as [Hb' _]. rewrite E, Hb in Hb'.
  now injection Hb'.
Qed.

Lemma breakpad_roundtrip_both_parsers_witness :
  from_breakpad (breakpad (from_timestamp_age 305419896 10)) = Ok (from_timestamp_age 305419896 10) /\
  from_str (breakpad (from_timestamp_age 305419896 10)) = Ok (from_timestamp_age 305419896 10).
Proof.
  assert (Hw : wf_debugid (from_timestamp_age 305419896 10))
    by (unfold wf_debugid; cbn; split; [reflexivity | lia]).
  destruct (breakpad_roundtrip_both_parsers _ Hw) as (H1 & H2 & _). split; assumption.
Defined.

(** Serialization writes [to_string] and deserialization parses with
    [FromStr]: every identifier comes back, except a PDB 2.0 identifier with
    age 0, whose 8-digit string is refused as an invalid value. *)
Theorem DebugId_serde_roundtrip (d : DebugId) :
  wf_debugid d ->
  DebugId_deserialize (DebugId_serialize d) =
    if is_pdb20 d && (appendix d =? 0)%Z then Err (invalid_value (DebugId_serialize d)) else Ok d.
Proof.
  intros Hd. unfold DebugId_deserialize, DebugId_serialize.
  destruct (wf_debugid_cases d Hd) as [(u & a & -> & Ha)|(t & a & -> & Ht & Ha)];
    cbn [is_pdb20 id appendix from_parts from_timestamp_age andb].
  - now rewrite roundtrip_uuid_default.
  - destruct (Z.eqb_spec a 0) as [->|Hne].
    + replace (to_string (from_timestamp_age t 0)) with (fmt_08X t)
        by (unfold to_string; cbn [id appendix from_timestamp_age]; symmetry; apply append_empty_r).
      now rewrite from_str_fmt_08X_rejected.
    + rewrite roundtrip_pdb20_default_nonzero by lia. reflexivity.
Qed.

Lemma DebugId_serde_roundtrip_witness :
  DebugId_deserialize (DebugId_serialize (from_timestamp_age 305419896 0)) =
    Err (invalid_value "12345678").
Proof.
  assert (Hw : wf_debugid (from_timestamp_age 305419896 0))
    by (unfold wf_debugid; cbn; split; [reflexivity | lia]).
  rewrite (DebugId_serde_roundtrip _ Hw). vm_compute. reflexivity.
Defined.

(** The lengths of the two string forms. *)
Theorem DebugId_string_lengths (d : DebugId) :
  wf_debugid d ->
  let n := String.length (to_string d) in
  let m := String.length (breakpad d) in
  match id d with
  | Uuid _ => (appendix d = 0%Z -> n = 36%nat) /\ (appendix d <> 0%Z -> (38 <= n <= 45)%nat) /\
              (33 <= m <= 40)%nat
  | Pdb20 _ => (appendix d = 0%Z -> n = 8%nat) /\ (appendix d <> 0%Z -> (10 <= n <= 17)%nat) /\
               (9 <= m <= 16)%nat
  end.
Proof.
  intros (_ & Ha & _). cbv zeta. unfold to_string, breakpad.
  pose proof (fmt_x_length (appendix d)) as Hx.
  destruct (id d) as [t|u]; rewrite !length_append;
    [rewrite fmt_08X_length | rewrite to_hyphenated_length, to_simple_upper_length];
    (split; [|split]);
    try (intros H0; rewrite H0; reflexivity);
    try (intros H0; replace (0 <? appendix d)%Z with true by (symmetry; apply Z.ltb_lt; lia);
         rewrite length_append; cbn [String.length]; lia);
    lia.
Qed.

Lemma DebugId_string_lengths_witness :
  String.length (to_string (from_parts uuid_dfb8 4277009102)) = 45%nat /\
  String.length (breakpad (from_parts uuid_dfb8 4277009102)) = 40%nat /\
  (38 <= String.length (to_string (from_parts uuid_dfb8 4277009102)) <= 45)%nat.
Proof.
  assert (Hw : wf_debugid (from_parts uuid_dfb8 4277009102))
    by (unfold wf_debugid; cbn; split; [reflexivity | split; [lia | exact I]]).
  pose proof (DebugId_string_lengths _ Hw) as H. cbn [id from_parts] in H.
  destruct H as (_ & H & _).
  split; [vm_compute; reflexivity|]. split; [vm_compute; reflexivity|].
  apply H. cbn. discriminate.
Defined.

(** The separator has to match the form of the UUID text: the hyphenated
    form needs a hyphen before the appendix, the compact form must not have
    one; and [from_breakpad] refuses the default (hyphenated) form. *)
Theorem separator_must_match_form (u : uuid.Uuid) (a : Z) :
  from_str (uuid.to_hyphenated u ++ fmt_x a) = Err ParseDebugIdError_ /\
  from_str (uuid.to_simple_upper u ++ "-" ++ fmt_x a) = Err ParseDebugIdError_ /\
  from_breakpad (to_string (from_parts u a)) = Err ParseDebugIdError_.
Proof.
  destruct (fmt_x_head a) as (c & r & Hcr & Hc).
  split; [|split].
  - rewrite from_str_parse_str.
    rewrite (parse_str_uuid_form _ (uuid.to_hyphenated u) (fmt_x a) _ u true);
      [| reflexivity
       | rewrite str_is_ascii_append, to_hyphenated_ascii; apply fmt_x_ascii
       | apply parse_to_hyphenated | apply to_hyphenated_length
       | rewrite to_hyphenated_at_8; reflexivity | reflexivity].
    rewrite Hcr. cbn [String.eqb andb negb general_options require_appendix starts_with_hyphen].
    rewrite Hc. reflexivity.
  - rewrite from_str_parse_str.
    rewrite (parse_str_uuid_form _ (uuid.to_simple_upper u) ("-" ++ fmt_x a) _ u false);
      [| reflexivity
       | rewrite str_is_ascii_append, to_simple_upper_ascii; simpl; apply fmt_x_ascii
       | apply parse_to_simple_upper | apply to_simple_upper_length
       | apply to_simple_upper_at_8 | discriminate].
    reflexivity.
  - rewrite from_breakpad_parse_str. rewrite parse_str_hyphen_rejected; [reflexivity | | reflexivity].
    unfold to_string. cbn [id appendix from_parts].
    assert (Hasc : str_is_ascii ((if (0 <? a)%Z then "-" ++ fmt_x a else "")) = true)
      by (destruct (0 <? a)%Z; [simpl; apply fmt_x_ascii | reflexivity]).
    rewrite hyphen_at_8_ascii.
    + rewrite substring_append_l by (rewrite to_hyphenated_length; lia).
      now rewrite to_hyphenated_at_8.
    + rewrite str_is_ascii_append, to_hyphenated_ascii. exact Hasc.
    + rewrite length_append, to_hyphenated_length. lia.
Qed.

Lemma zeros_digits (k : nat) : zeros k = string_of_list_ascii (map hex_digit_lower (repeat 0%Z k)).
Proof. unfold zeros. rewrite map_repeat. reflexivity. Qed.

Lemma zeros_add (m n : nat) : zeros (m + n) = zeros m ++ zeros n.
Proof. unfold zeros. now rewrite repeat_app, string_of_list_ascii_app. Qed.

Lemma zeros_length (k : nat) : String.length (zeros k) = k.
Proof. unfold zeros. now rewrite length_string_of_list_ascii, repeat_length. Qed.

Lemma zeros_ascii (k : nat) : str_is_ascii (zeros k) = true.
Proof. induction k as [|k IH]; [reflexivity | exact IH]. Qed.

Lemma zeros_fmt_x_from_str (k : nat) (a : Z) :
  (0 <= a < 2 ^ 32)%Z -> u32_from_str_radix16 (zeros k ++ fmt_x a) = Some a.
Proof.
  intros Ha. destruct (fmt_x_as_digits a) as (l & E & Hne & Hl & _ & Hv).
  rewrite E, zeros_digits, <- string_of_list_ascii_app, <- map_app.
  apply (digit_string_from_str _ hex_digit_lower_ok).
  - destruct l; [congruence|]. intros H. apply app_eq_nil in H as [_ H]. discriminate.
  - apply Forall_app. split; [|exact Hl].
    apply Forall_forall. intros x Hx. apply repeat_spec in Hx. subst. unfold is_digit16. lia.
  - exact Ha.
  - rewrite digits_value_zeros. exact (Hv Ha).
Qed.

Lemma zeros_fmt_x_no_hyphen (k : nat) (a : Z) : starts_with_hyphen (zeros k ++ fmt_x a) = false.
Proof.
  destruct k as [|k]; [|reflexivity].
  destruct (fmt_x_head a) as (c & r & -> & Hc). exact Hc.
Qed.

(** [from_breakpad] reads an appendix with any number of leading zeros; the
    general parser cuts the appendix after 8 characters, so after 8 or more
    leading zeros it reads appendix 0 from the same string. *)
Theorem breakpad_appendix_leading_zeros (u : uuid.Uuid) (a : Z) (k : nat) :
  (0 <= a < 2 ^ 32)%Z ->
  from_breakpad (uuid.to_simple_upper u ++ zeros k ++ fmt_x a) = Ok (from_parts u a) /\
  ((8 <= k)%nat -> from_str (uuid.to_simple_upper u ++ zeros k ++ fmt_x a) = Ok (from_parts u 0)).
Proof.
  intros Ha.
  assert (Hr : str_is_ascii (zeros k ++ fmt_x a) = true)
    by (rewrite str_is_ascii_append, zeros_ascii; apply fmt_x_ascii).
  split.
  - rewrite from_breakpad_parse_str.
    rewrite (parse_str_uuid_form _ (uuid.to_simple_upper u) (zeros k ++ fmt_x a) _ u false);
      [| reflexivity
       | rewrite str_is_ascii_append, to_simple_upper_ascii; exact Hr
       | apply parse_to_simple_upper | apply to_simple_upper_length
       | apply to_simple_upper_at_8 | discriminate].
    rewrite zeros_fmt_x_no_hyphen.
    cbn [breakpad_options require_appendix allow_tail negb andb xorb].
    now rewrite zeros_fmt_x_from_str.
  - intros Hk.
    pose proof (fmt_x_length a) as Hxl.
    pose proof (from_str_long_tail (uuid.to_simple_upper u) (zeros k ++ fmt_x a) u
                  (parse_to_simple_upper u) (or_intror (to_simple_upper_length u)) Hr) as E.
    rewrite to_simple_upper_length in E. cbn [Nat.eqb] in E.
    change ("" ++ (zeros k ++ fmt_x a)) with (zeros k ++ fmt_x a) in E.
    rewrite E by (rewrite length_append, zeros_length; lia).
    replace k with (8 + (k - 8))%nat by lia.
    rewrite zeros_add, append_assoc, substring_0_append by (symmetry; apply zeros_length).
    reflexivity.
Qed.

Lemma breakpad_appendix_leading_zeros_witness :
  from_breakpad (uuid.to_simple_upper uuid_dfb8 ++ zeros 9 ++ fmt_x 10) = Ok (from_parts uuid_dfb8 10) /\
  from_str (uuid.to_simple_upper uuid_dfb8 ++ zeros 9 ++ fmt_x 10) = Ok (from_parts uuid_dfb8 0).
Proof.
  assert (Ha : (0 <= 10 < 2 ^ 32)%Z) by lia.
  assert (Hk : (8 <= 9)%nat) by lia.
  destruct (breakpad_appendix_leading_zeros uuid_dfb8 10 9 Ha) as [H1 H2].
  split; [exact H1 | exact (H2 Hk)].
Defined.

Lemma u32_from_str_radix16_plus (s : string) :
  s <> "" -> u32_from_str_radix16 (String "+" s) = u32_radix16_digits 0 s.
Proof. intros Hs. destruct s as [|c s]; [congruence | reflexivity]. Qed.

Lemma plus_digits_from_str (l : list Z) :
  Forall is_digit16 l -> (digits_value l < 2 ^ 32)%Z ->
  u32_radix16_digits 0 (string_of_list_ascii (map hex_digit_lower l)) = Some (digits_value l).
Proof. intros Hl Hv. apply (u32_radix16_digits_ok _ hex_digit_lower_ok); [lia | exact Hl | exact Hv]. Qed.

(** [u32::from_str_radix] takes a leading [+]: [from_breakpad] reads the
    appendix behind it; the general parser cuts the appendix text after 8
    characters counting the [+], so an 8-digit appendix loses its last digit. *)
Theorem appendix_plus_sign (u : uuid.Uuid) (a : Z) :
  (0 <= a < 2 ^ 32)%Z ->
  from_breakpad (uuid.to_simple_upper u ++ "+" ++ fmt_x a) = Ok (from_parts u a) /\
  from_str (uuid.to_hyphenated u ++ "-+" ++ fmt_x a) =
    Ok (from_parts u (if Nat.eqb (String.length (fmt_x a)) 8 then (a / 16)%Z else a)).
Proof.
  intros Ha. pose proof (fmt_x_ascii a) as Hasc.
  destruct (fmt_x_as_digits a) as (l & E & Hne & Hl & Hlen & Hv). specialize (Hv Ha).
  assert (HX : fmt_x a <> "") by (rewrite E; destruct l; [congruence | discriminate]).
  assert (HXl : String.length (fmt_x a) = List.length l)
    by (rewrite E, length_string_of_list_ascii, length_map; reflexivity).
  split.
  - rewrite from_breakpad_parse_str.
    rewrite (parse_str_uuid_form _ (uuid.to_simple_upper u) ("+" ++ fmt_x a) _ u false);
      [| reflexivity
       | rewrite str_is_ascii_append, to_simple_upper_ascii; exact Hasc
       | apply parse_to_simple_upper | apply to_simple_upper_length
       | apply to_simple_upper_at_8 | discriminate].
    cbn [breakpad_options require_appendix allow_tail negb andb xorb String.append starts_with_hyphen].
    change (Ascii.eqb "+" "-") with false. cbn [xorb].
    rewrite u32_from_str_radix16_plus by exact HX.
    rewrite E, plus_digits_from_str by (auto; lia). now rewrite Hv.
  - rewrite from_str_parse_str.
    rewrite (parse_str_uuid_form _ (uuid.to_hyphenated u) ("-+" ++ fmt_x a) _ u true);
      [| reflexivity
       | rewrite str_is_ascii_append, to_hyphenated_ascii; exact Hasc
       | apply parse_to_hyphenated | apply to_hyphenated_length
       | rewrite to_hyphenated_at_8; reflexivity | reflexivity].
    cbn [general_options require_appendix allow_tail negb andb xorb String.append starts_with_hyphen String.eqb].
    change (Ascii.eqb "-" "-") with true. cbn [xorb].
    rewrite str_slice_from_cons. cbn [String.length].
    rewrite HXl.
    destruct (Nat.eqb (List.length l) 8) eqn:E8.
    + apply Nat.eqb_eq in E8.
      do 8 (destruct l as [|? l]; [discriminate|]). destruct l; [|discriminate].
      clear E8 Hne HXl HX. rewrite E. cbn [Nat.ltb Nat.leb].
      cbn [map string_of_list_ascii str_slice_to substring].
      cbn [List.length Nat.ltb Nat.leb andb].       rewrite u32_from_str_radix16_plus by discriminate.
      set (l7 := [z; z0; z1; z2; z3; z4; z5]).
      match goal with |- context [u32_radix16_digits 0 ?s] =>
        change s with (string_of_list_ascii (map hex_digit_lower l7)) end.
      change [z; z0; z1; z2; z3; z4; z5; z6] with ((l7 ++ [z6])%list) in Hl, Hv.
      apply Forall_app in Hl as [Hl7 Hz6]. apply Forall_cons_iff in Hz6 as [Hz6 _].
      unfold digits_value in Hv. rewrite fold_left_app in Hv. cbn [fold_left] in Hv.
      fold (digits_value l7) in Hv. unfold digit_step, is_digit16 in *.
      assert (Hq : digits_value l7 = (a / 16)%Z) by (apply Z.div_unique_pos with z6; lia).
      rewrite plus_digits_from_str by (auto; lia). now rewrite Hq.
    + apply Nat.eqb_neq in E8.
      replace (Nat.ltb 8 (S (List.length l))) with false by (symmetry; apply Nat.ltb_ge; lia).
      rewrite u32_from_str_radix16_plus by exact HX.
      rewrite E, plus_digits_from_str by (auto; lia). now rewrite Hv.
Qed.

Lemma appendix_plus_sign_witness :
  from_breakpad (uuid.to_simple_upper uuid_dfb8 ++ "+" ++ fmt_x 305419896) = Ok (from_parts uuid_dfb8 305419896) /\
  from_str (uuid.to_hyphenated uuid_dfb8 ++ "-+" ++ fmt_x 305419896) = Ok (from_parts uuid_dfb8 19088743).
Proof.
  assert (Ha : (0 <= 305419896 < 2 ^ 32)%Z) by lia.
  destruct (appendix_plus_sign uuid_dfb8 305419896 Ha) as [H1 H2].
  split; [exact H1 | rewrite H2; vm_compute; reflexivity].
Defined.

Lemma uuid_is_nil_iff (u : uuid.Uuid) : uuid.is_nil u = true <-> u = uuid.nil.
Proof.
  split; [|intros ->; reflexivity].
  destruct u. unfold uuid.is_nil, uuid.as_bytes. cbn [forallb uuid.u0 uuid.u1 uuid.u2 uuid.u3 uuid.u4 uuid.u5 uuid.u6 uuid.u7 uuid.u8 uuid.u9 uuid.u10 uuid.u11 uuid.u12 uuid.u13 uuid.u14 uuid.u15].
  intros H.
  repeat match goal with H : _ && _ = true |- _ => apply andb_prop in H as [? H] end.
  repeat match goal with H : Byte.eqb ?x x00 = true |- _ => apply Byte.byte_dec_bl in H; subst x end.
  reflexivity.
Qed.

(** On the identifiers the constructors build, [is_nil] holds exactly for
    [DebugId::nil()] and for the PDB 2.0 identifier with timestamp and age 0. *)
Theorem DebugId_is_nil_iff (d : DebugId) :
  wf_debugid d -> (is_nil d = true <-> d = nil \/ d = from_timestamp_age 0 0).
Proof.
  intros Hwf. destruct (wf_debugid_cases d Hwf) as [(u & a & -> & Ha) | (t & a & -> & Ht & Ha)].
  - unfold is_nil, from_parts. cbn [id appendix]. split.
    + intros H. apply andb_prop in H as [Hu Ha0].
      apply uuid_is_nil_iff in Hu. apply Z.eqb_eq in Ha0. subst. left. reflexivity.
    + intros [E | E]; [|discriminate]. injection E as -> ->. reflexivity.
  - unfold is_nil, from_timestamp_age. cbn [id appendix]. split.
    + intros H. apply andb_prop in H as [H1 H2].
      apply Z.eqb_eq in H1. apply Z.eqb_eq in H2. subst. right. reflexivity.
    + intros [E | E]; [discriminate|]. injection E as -> ->. reflexivity.
Qed.

Lemma DebugId_is_nil_iff_witness :
  is_nil (from_timestamp_age 0 0) = true <-> from_timestamp_age 0 0 = nil \/ from_timestamp_age 0 0 = from_timestamp_age 0 0.
Proof.
  assert (Hw : wf_debugid (from_timestamp_age 0 0))
    by (unfold wf_debugid; cbn; split; [reflexivity | lia]).
  exact (DebugId_is_nil_iff _ Hw).
Defined.

Lemma lower_hexdigit_fixed (c : ascii) :
  is_lower_hexdigit c = true -> is_ascii_hexdigit c = true /\ to_ascii_lowercase c = c.
Proof.
  destruct c as [[] [] [] [] [] [] [] []]; vm_compute; intros H; first [split; reflexivity | discriminate].
Qed.

Lemma CodeId_new_fixed (s : string) :
  Forall (fun c => is_lower_hexdigit c = true) (list_ascii_of_string s) ->
  CodeId_new s = mkCodeId s.
Proof.
  unfold CodeId_new. intros H. f_equal.
  induction s as [|c s IH]; [reflexivity|]. cbn [list_ascii_of_string] in H.
  apply Forall_cons_iff in H as [Hc Hs]. destruct (lower_hexdigit_fixed c Hc) as [H1 H2].
  cbn [retain_hexdigits]. rewrite H1. cbn [make_ascii_lowercase]. rewrite H2, (IH Hs). reflexivity.
Qed.

Lemma CodeId_new_idem (s : string) : CodeId_new (inner (CodeId_new s)) = CodeId_new s.
Proof. rewrite CodeId_new_fixed by apply CodeId_new_lower. destruct (CodeId_new s). reflexivity. Qed.

(** Serialising a [CodeId] and deserialising the string gives it back, and so
    does reparsing its [as_str]: every [CodeId] the API builds ([new],
    [from_binary], [nil]) is already normalised. *)
Theorem CodeId_serde_roundtrip (s : string) (l : list byte) :
  CodeId_deserialize (CodeId_serialize (CodeId_new s)) = Ok (CodeId_new s) /\
  CodeId_from_str (CodeId_as_str (CodeId_new s)) = Ok (CodeId_new s) /\
  CodeId_deserialize (CodeId_serialize (CodeId_from_binary l)) = Ok (CodeId_from_binary l) /\
  CodeId_from_str (CodeId_as_str (CodeId_from_binary l)) = Ok (CodeId_from_binary l) /\
  CodeId_deserialize (CodeId_serialize CodeId_nil) = Ok CodeId_nil.
Proof.
  unfold CodeId_deserialize, CodeId_serialize, CodeId_from_str, CodeId_as_str, CodeId_from_binary.
  rewrite !CodeId_new_idem. repeat split; reflexivity.
Qed.

Lemma fmt_bytes_02x_length (l : list byte) :
  String.length (uuid.fmt_bytes uuid.fmt_02x l) = (2 * List.length l)%nat.
Proof.
  induction l as [|b l IH]; [reflexivity|]. cbn [uuid.fmt_bytes].
  rewrite length_append, IH. cbn [List.length]. rewrite fmt_02x_shape. cbn [String.length]. lia.
Qed.

Lemma hex_digit_upper_lower (d : Z) :
  is_digit16 d ->
  is_ascii_hexdigit (hex_digit_upper d) = true /\ to_ascii_lowercase (hex_digit_upper d) = hex_digit_lower d.
Proof. revert d. apply digit16_cases; vm_compute; auto. Qed.

(** [from_binary] writes two lowercase hex digits per byte, so it is
    injective, its string is twice as long as the slice, and [new] on the
    uppercase hex of the same bytes gives the same [CodeId]. *)
Theorem CodeId_from_binary_props (l l' : list byte) :
  String.length (CodeId_as_str (CodeId_from_binary l)) = (2 * List.length l)%nat /\
  (CodeId_from_binary l = CodeId_from_binary l' -> l = l') /\
  CodeId_new (uuid.fmt_bytes uuid.fmt_02X l) = CodeId_from_binary l.
Proof.
  split; [|split].
  - unfold CodeId_as_str. rewrite CodeId_from_binary_inner. apply fmt_bytes_02x_length.
  - intros E. apply (f_equal inner) in E. rewrite !CodeId_from_binary_inner in E.
    pose proof (hex_pairs_fmt_bytes _ hex_digit_lower_ok _ fmt_02x_shape l) as H.
    rewrite E, (hex_pairs_fmt_bytes _ hex_digit_lower_ok _ fmt_02x_shape l') in H.
    congruence.
  - transitivity (mkCodeId (uuid.fmt_bytes uuid.fmt_02x l)).
    2:{ rewrite <- CodeId_from_binary_inner. destruct (CodeId_from_binary l). reflexivity. }
    unfold CodeId_new. f_equal.
    induction l as [|b l IH]; [reflexivity|]. cbn [uuid.fmt_bytes].
    rewrite retain_hexdigits_append, make_ascii_lowercase_append, IH. f_equal.
    destruct (nibbles_ok b) as (Hh & Hl & _).
    destruct (hex_digit_upper_lower _ Hh) as [Hh1 Hh2]. destruct (hex_digit_upper_lower _ Hl) as [Hl1 Hl2].
    rewrite fmt_02X_shape, fmt_02x_shape. cbn [retain_hexdigits]. rewrite Hh1, Hl1.
    cbn [make_ascii_lowercase]. rewrite Hh2, Hl2. reflexivity.
Qed.

Lemma hex_digit_lower_compare (d1 d2 : Z) :
  is_digit16 d1 -> is_digit16 d2 -> Ascii.compare (hex_digit_lower d1) (hex_digit_lower d2) = Z.compare d1 d2.
Proof.
  intros H1 H2. revert d1 H1. apply digit16_cases; revert d2 H2; apply digit16_cases; vm_compute; reflexivity.
Qed.

Lemma nibble_compare (x y : byte) (c : comparison) :
  match Z.compare (uuid.hi_nibble x) (uuid.hi_nibble y) with
  | Eq => match Z.compare (uuid.lo_nibble x) (uuid.lo_nibble y) with Eq => c | r => r end
  | r => r end =
  match N.compare (Byte.to_N x) (Byte.to_N y) with Eq => c | r => r end.
Proof.
  unfold uuid.hi_nibble, uuid.lo_nibble. rewrite <- N2Z.inj_compare.
  set (X := Z.of_N (Byte.to_N x)). set (Y := Z.of_N (Byte.to_N y)).
  pose proof (Z.div_mod X 16 ltac:(lia)) as HX. pose proof (Z.mod_pos_bound X 16 ltac:(lia)) as HXr.
  pose proof (Z.div_mod Y 16 ltac:(lia)) as HY. pose proof (Z.mod_pos_bound Y 16 ltac:(lia)) as HYr.
  clearbody X Y. set (qx := (X / 16)%Z) in *. set (rx := (X mod 16)%Z) in *.
  set (qy := (Y / 16)%Z) in *. set (ry := (Y mod 16)%Z) in *. clearbody qx rx qy ry.
  destruct (Z.compare_spec qx qy); destruct (Z.compare_spec rx ry);
    destruct (Z.compare_spec X Y); try reflexivity; lia.
Qed.

Lemma fmt_02x_compare (x y : byte) (s t : string) :
  String.compare (uuid.fmt_02x x ++ s) (uuid.fmt_02x y ++ t) =
  match N.compare (Byte.to_N x) (Byte.to_N y) with Eq => String.compare s t | r => r end.
Proof.
  destruct (nibbles_ok x) as (Hhx & Hlx & _). destruct (nibbles_ok y) as (Hhy & Hly & _).
  rewrite !fmt_02x_shape. cbn [String.append String.compare].
  rewrite !hex_digit_lower_compare by assumption. apply nibble_compare.
Qed.

Lemma fmt_bytes_02x_compare (a b : list byte) :
  String.compare (uuid.fmt_bytes uuid.fmt_02x a) (uuid.fmt_bytes uuid.fmt_02x b) = bytes_cmp a b.
Proof.
  revert b. induction a as [|x a IH]; intros [|y b]; try reflexivity.
  cbn [uuid.fmt_bytes bytes_cmp]. rewrite fmt_02x_compare, IH. reflexivity.
Qed.

(** The derived order of [CodeId] compares the hex strings; on identifiers
    built by [from_binary] it is the byte-wise order of the slices. *)
Theorem CodeId_from_binary_order (a b : list byte) :
  CodeId_cmp (CodeId_from_binary a) (CodeId_from_binary b) = bytes_cmp a b.
Proof. unfold CodeId_cmp. rewrite !CodeId_from_binary_inner. apply fmt_bytes_02x_compare. Qed.


(** Whatever [from_str] or [from_breakpad] accepts is ASCII and yields an
    identifier with [u32] fields and zero padding: a PDB 2.0 identifier from
    9 to 17 characters, a UUID identifier from at least 32. *)
Theorem parsed_debugid_shape (s : string) (d : DebugId) :
  (from_str s = Ok d \/ from_breakpad s = Ok d) ->
  str_is_ascii s = true /\ wf_debugid d /\
  ((is_pdb20 d = true /\ (9 <= String.length s <= 17)%nat) \/
   (is_pdb20 d = false /\ (32 <= String.length s)%nat)).
Proof.
  intros H. destruct (parsed_ok s d H) as [o Ho].
  destruct (parse_str_result s o d Ho) as [Hs [(t & a & -> & Ht & Ha & Hl) | (u & a & -> & Ha & Hl)]].
  - split; [exact Hs|]. split; [split; [reflexivity | split; assumption] | left; split; [reflexivity | exact Hl]].
  - split; [exact Hs|]. split; [split; [reflexivity | split; [assumption | exact I]] | right; split; [reflexivity | exact Hl]].
Qed.

Lemma parsed_debugid_shape_witness :
  str_is_ascii "12345678a" = true /\ wf_debugid (from_timestamp_age 305419896 10) /\
  ((is_pdb20 (from_timestamp_age 305419896 10) = true /\ (9 <= String.length "12345678a" <= 17)%nat) \/
   (is_pdb20 (from_timestamp_age 305419896 10) = false /\ (32 <= String.length "12345678a")%nat)).
Proof. apply parsed_debugid_shape. left. vm_compute. reflexivity. Defined.

(** [from_guid_age] loses nothing: two successful calls that give the same
    identifier had the same GUID and age. *)
Theorem from_guid_age_injective (g g' : list byte) (a a' : Z) (d : DebugId) :
  from_guid_age g a = Ok d -> from_guid_age g' a' = Ok d -> g = g' /\ a = a'.
Proof.
  unfold from_guid_age.
  destruct (Nat.eqb_spec (List.length g) 16) as [Hg|]; [|discriminate].
  destruct (Nat.eqb_spec (List.length g') 16) as [Hg'|]; [|discriminate].
  do 16 (destruct g as [|? g]; [discriminate|]). destruct g; [|discriminate].
  do 16 (destruct g' as [|? g']; [discriminate|]). destruct g'; [|discriminate].
  cbn. intros H1 H2. rewrite <- H2 in H1. injection H1. intros. subst. split; reflexivity.
Qed.

Lemma from_guid_age_injective_witness :
  uuid.as_bytes uuid_dfb8 = uuid.as_bytes uuid_dfb8 /\ (7 = 7)%Z.
Proof.
  apply (from_guid_age_injective _ _ 7 7
           (from_parts (uuid.from_bytes x3a xe4 xb8 xdf x42 xf2 x73 x3d xa4 x53 xae xb6 xa7 x77 xef x75) 7));
    vm_compute; reflexivity.
Defined.


Section case_map.
Variable f : ascii -> ascii.
Hypothesis f_ascii : forall c, is_ascii_char (f c) = is_ascii_char c.
Hypothesis f_non_ascii : forall c, is_ascii_char c = false -> f c = c.
Hypothesis f_hyphen : forall c, Ascii.eqb (f c) "-" = Ascii.eqb c "-".
Hypothesis f_plus : forall c, Ascii.eqb (f c) "+" = Ascii.eqb c "+".
Hypothesis f_digit : forall c, to_digit16 (f c) = to_digit16 c.

Lemma str_map_length (s : string) : String.length (str_map f s) = String.length s.
Proof. induction s as [|c s IH]; simpl; congruence. Qed.

Lemma str_map_substring (n m : nat) (s : string) :
  substring n m (str_map f s) = str_map f (substring n m s).
Proof.
  revert n m. induction s as [|c s IH]; intros [|n] [|m]; simpl; try reflexivity; now rewrite IH.
Qed.

Lemma str_map_get (i : nat) (s : string) : String.get i (str_map f s) = option_map f (String.get i s).
Proof. revert i. induction s as [|c s IH]; intros [|i]; simpl; try reflexivity; apply IH. Qed.

Lemma f_continuation (c : ascii) :
  (128 <=? byte_val (f c))%Z && (byte_val (f c) <? 192)%Z = (128 <=? byte_val c)%Z && (byte_val c <? 192)%Z.
Proof.
  destruct (is_ascii_char c) eqn:E.
  - pose proof (f_ascii c) as H. rewrite E in H. unfold is_ascii_char in E, H.
    apply Z.ltb_lt in E. apply Z.ltb_lt in H.
    replace (128 <=? byte_val (f c))%Z with false by (symmetry; apply Z.leb_gt; lia).
    replace (128 <=? byte_val c)%Z with false by (symmetry; apply Z.leb_gt; lia). reflexivity.
  - now rewrite (f_non_ascii c E).
Qed.

Lemma str_map_boundary (s : string) (i : nat) : is_char_boundary (str_map f s) i = is_char_boundary s i.
Proof.
  unfold is_char_boundary. destruct i as [|i]; [reflexivity|].
  rewrite str_map_get, str_map_length. destruct (String.get (S i) s); simpl; [|reflexivity].
  now rewrite f_continuation.
Qed.

Lemma str_map_str_get (s : string) (a b : nat) :
  str_get (str_map f s) a b = option_map (str_map f) (str_get s a b).
Proof.
  unfold str_get. rewrite str_map_length, !str_map_boundary.
  destruct (_ && _ && _ && _); simpl; [now rewrite str_map_substring | reflexivity].
Qed.

Lemma str_map_eqb_hyphen (h : string) : String.eqb (str_map f h) "-" = String.eqb h "-".
Proof.
  destruct h as [|c h]; [reflexivity|]. cbn [str_map String.eqb]. rewrite f_hyphen.
  destruct (Ascii.eqb c "-"); [|reflexivity]. destruct h; reflexivity.
Qed.

Lemma str_map_hyphen_at_8 (s : string) : hyphen_at_8 (str_map f s) = hyphen_at_8 s.
Proof.
  unfold hyphen_at_8. rewrite str_map_str_get. destruct (str_get s 8 9); simpl; [|reflexivity].
  apply str_map_eqb_hyphen.
Qed.

Lemma str_map_ascii (s : string) : str_is_ascii (str_map f s) = str_is_ascii s.
Proof. induction s as [|c s IH]; simpl; [reflexivity | now rewrite f_ascii, IH]. Qed.

Lemma str_map_radix16_digits (acc : Z) (s : string) :
  u32_radix16_digits acc (str_map f s) = u32_radix16_digits acc s.
Proof.
  revert acc. induction s as [|c s IH]; intros acc; [reflexivity|].
  cbn [str_map u32_radix16_digits]. rewrite f_digit.
  destruct (to_digit16 c); [|reflexivity]. cbv zeta.
  destruct (_ <? _)%Z; [|reflexivity]. destruct (_ <? _)%Z; [apply IH | reflexivity].
Qed.

Lemma str_map_from_str_radix16 (s : string) :
  u32_from_str_radix16 (str_map f s) = u32_from_str_radix16 s.
Proof.
  destruct s as [|c r]; [reflexivity|].
  change (str_map f (String c r)) with (String (f c) (str_map f r)).
  unfold u32_from_str_radix16. rewrite f_hyphen, f_plus.
  replace (String.eqb (str_map f r) "") with (String.eqb r "") by (destruct r; reflexivity).
  change (String (f c) (str_map f r)) with (str_map f (String c r)).
  now rewrite !str_map_radix16_digits.
Qed.

Lemma str_map_starts_with_hyphen (s : string) : starts_with_hyphen (str_map f s) = starts_with_hyphen s.
Proof. destruct s; [reflexivity | apply f_hyphen]. Qed.

Lemma str_map_slice_from (s : string) (a : nat) : str_slice_from (str_map f s) a = str_map f (str_slice_from s a).
Proof. unfold str_slice_from. now rewrite str_map_length, str_map_substring. Qed.

Lemma str_map_slice_to (s : string) (b : nat) : str_slice_to (str_map f s) b = str_map f (str_slice_to s b).
Proof. apply str_map_substring. Qed.

Lemma str_map_hyphens_in_place (i : nat) (s : string) :
  uuid.hyphens_in_place i (str_map f s) = uuid.hyphens_in_place i s.
Proof.
  revert i. induction s as [|c s IH]; intros i; [reflexivity|].
  cbn [str_map uuid.hyphens_in_place]. rewrite IH, f_hyphen. reflexivity.
Qed.

Lemma str_map_drop_group_hyphens (i : nat) (s : string) :
  uuid.drop_group_hyphens i (str_map f s) = str_map f (uuid.drop_group_hyphens i s).
Proof.
  revert i. induction s as [|c s IH]; intros i; [reflexivity|].
  cbn [str_map uuid.drop_group_hyphens]. destruct (uuid.is_group_hyphen i); rewrite IH; reflexivity.
Qed.

Lemma str_map_hex_pairs (s : string) :
  uuid.hex_pairs (str_map f s) = uuid.hex_pairs s /\
  forall c, uuid.hex_pairs (str_map f (String c s)) = uuid.hex_pairs (String c s).
Proof.
  induction s as [|c' s [IH1 IH2]]; split.
  - reflexivity.
  - intros c. reflexivity.
  - exact (IH2 c').
  - intros c. cbn [str_map uuid.hex_pairs]. rewrite !f_digit. fold (str_map f s). now rewrite IH1.
Qed.

Lemma str_map_uuid_parse_str (s : string) :
  String.length s <> 45%nat -> uuid.parse_str (str_map f s) = uuid.parse_str s.
Proof.
  intros H45. unfold uuid.parse_str, uuid.parse_hyphenated. rewrite str_map_length.
  destruct (Nat.eqb (String.length s) 36).
  - rewrite str_map_hyphens_in_place, str_map_drop_group_hyphens, (proj1 (str_map_hex_pairs _)). reflexivity.
  - destruct (Nat.eqb (String.length s) 32).
    + now rewrite (proj1 (str_map_hex_pairs _)).
    + replace (Nat.eqb (String.length s) 45) with false by (symmetry; apply Nat.eqb_neq; exact H45).
      reflexivity.
Qed.

Lemma str_map_parse_str (s : string) (o : ParseOptions) : parse_str (str_map f s) o = parse_str s o.
Proof.
  unfold parse_str, str_get_to, str_get_from. cbv zeta.
  rewrite str_map_hyphen_at_8, str_map_ascii, str_map_length.
  destruct (hyphen_at_8 s && negb (allow_hyphens o) || negb (str_is_ascii s)); [reflexivity|].
  destruct (pdb20_window (hyphen_at_8 s) (String.length s)).
  - rewrite str_map_str_get. destruct (str_get s 0 8); cbn [option_map]; [|reflexivity].
    rewrite str_map_from_str_radix16. destruct (u32_from_str_radix16 s0); [|reflexivity].
    destruct (hyphen_at_8 s); rewrite str_map_str_get;
      (destruct (str_get s _ _); cbn [option_map]; [now rewrite str_map_from_str_radix16 | reflexivity]).
  - rewrite str_map_str_get. destruct (str_get s 0 (if hyphen_at_8 s then 36%nat else 32%nat)) as [us|] eqn:G;
      cbn [option_map]; [|reflexivity].
    rewrite str_map_uuid_parse_str.
    2:{ unfold str_get in G. destruct (_ && _ && _ && _) eqn:G2; [|discriminate].
        injection G as <-. apply andb_prop in G2 as [G2 _]. apply andb_prop in G2 as [G2 _].
        apply andb_prop in G2 as [_ G2]. apply Nat.leb_le in G2.
        rewrite Nat.sub_0_r, substring_0_length by exact G2. destruct (hyphen_at_8 s); discriminate. }
    destruct (uuid.parse_str us); [|reflexivity].
    destruct (negb (require_appendix o) && _); [reflexivity|].
    rewrite str_map_slice_from, str_map_starts_with_hyphen.
    destruct (xorb _ _); [reflexivity|].
    destruct (hyphen_at_8 s); rewrite ?str_map_slice_from, str_map_length;
      (destruct (allow_tail o && _); [rewrite str_map_slice_to|]; now rewrite str_map_from_str_radix16).
Qed.

End case_map.

Lemma make_ascii_lowercase_map (s : string) : make_ascii_lowercase s = str_map to_ascii_lowercase s.
Proof. induction s as [|c s IH]; simpl; congruence. Qed.

Lemma make_ascii_uppercase_map (s : string) : make_ascii_uppercase s = str_map to_ascii_uppercase s.
Proof. induction s as [|c s IH]; simpl; congruence. Qed.

Ltac all_bytes := intros [[] [] [] [] [] [] [] []]; vm_compute; first [reflexivity | discriminate | intros; discriminate].

Lemma lowercase_parse_str (s : string) (o : ParseOptions) :
  parse_str (make_ascii_lowercase s) o = parse_str s o.
Proof.
  rewrite make_ascii_lowercase_map. apply str_map_parse_str; all_bytes.
Qed.

Lemma uppercase_parse_str (s : string) (o : ParseOptions) :
  parse_str (make_ascii_uppercase s) o = parse_str s o.
Proof.
  rewrite make_ascii_uppercase_map. apply str_map_parse_str; all_bytes.
Qed.

(** Parsing ignores letter case: the ASCII-lowercased and the
    ASCII-uppercased input give the same result as the input. *)
Theorem parse_case_insensitive (s : string) :
  from_str (make_ascii_lowercase s) = from_str s /\ from_str (make_ascii_uppercase s) = from_str s /\
  from_breakpad (make_ascii_lowercase s) = from_breakpad s /\
  from_breakpad (make_ascii_uppercase s) = from_breakpad s.
Proof.
  rewrite !from_str_parse_str, !from_breakpad_parse_str, !lowercase_parse_str, !uppercase_parse_str.
  repeat split.
Qed.
